(** * tmtoolkit.topicmod.model_stats: statistics for topic models and
    document-term matrices, embedded from [model_stats.py].

    Conventions of the embedding.
    - A 1D numpy array is a [list]; a 2D array is a [matrix] (its shape and
      its rows), so that arrays with zero rows keep their column count.
    - Python exceptions are the constructors of [exception]; a function that
      can raise returns a [result].
    - [np.argsort] belongs to numpy, not to this module: the ranking code
      takes it as a parameter, constrained by [ArgsortSpec], which every
      sort kind meets.  The code calls it with the default kind, which is
      not stable, so nothing is assumed about the order of tied scores.
      [stable_argsort] is one executable function that meets
      [ArgsortSpec]; the examples run on it.
    - Numbers are embedded twice.
      The arithmetic the code runs: [Int64] has the 64-bit integers of
      [np.sum] over counts, with wrap-around; [Binary64] has the IEEE 754
      floats of the topic-model arrays, with rounding, overflow, signed
      zeros and NaN, on Rocq's primitive floats.  [np.log] belongs to the
      C library: the binary64 functions take its values on ordinary
      arguments as a parameter.
      The exact values: counts and proportions as rationals ([Q]),
      probabilities as extended reals ([xreal]) with IEEE rules for
      infinities and NaN only.  The exact functions are what the code
      computes when no sum leaves [int64] and nothing is rounded; they
      carry the properties that do not depend on the value of a number
      (shapes, lengths, rankings, exceptions) and those stated of the
      exact value.
    - numpy broadcasting failures on mismatched shapes are outside the model:
      the theorems assume the shapes agree. *)

From Stdlib Require Import QArith Reals Lqa Lra Lia.
From Stdlib Require Import Ascii DecimalString DecimalNat.
From Stdlib Require Import PrimFloat FloatOps FloatAxioms SpecFloat.
From stdpp Require Import base tactics option list sorting gmap strings.

(** ** Exceptions and results *)

Inductive exception : Type :=
  | ValueError
  | IndexError
  | AssertionError.

Inductive result (A : Type) : Type :=
  | Return (a : A)
  | Raise (e : exception).
Arguments Return {A} a.
Arguments Raise {A} e.

#[global] Instance exception_eq_dec : EqDecision exception.
Proof. solve_decision. Defined.

#[global] Instance result_ret : MRet result := fun A a => Return a.

#[global] Instance result_bind : MBind result := fun A B f m =>
  match m with
  | Return a => f a
  | Raise e => Raise e
  end.

#[global] Instance result_fmap : FMap result := fun A B f m =>
  match m with
  | Return a => Return (f a)
  | Raise e => Raise e
  end.

(** [raise_if c e]: [if c: raise e]. *)
Definition raise_if (c : bool) (e : exception) : result unit :=
  if c then Raise e else Return tt.

(** [for x in xs: f x], collecting the results; the first exception stops
    the loop. *)
Fixpoint for_each {A B : Type} (f : A -> result B) (xs : list A)
  : result (list B) :=
  match xs with
  | [] => Return []
  | x :: xs' => y ← f x; ys ← for_each f xs'; Return (y :: ys)
  end.

(** ** Arrays *)

(** [tabulate n f] is the 1D array [f 0, ..., f (n-1)]. *)
Definition tabulate {A : Type} (n : nat) (f : nat -> A) : list A :=
  f <$> seq 0 n.

Record matrix (A : Type) : Type := Matrix {
  shape0 : nat;
  shape1 : nat;
  rows : list (list A)
}.
Arguments Matrix {A} shape0 shape1 rows.
Arguments shape0 {A} m.
Arguments shape1 {A} m.
Arguments rows {A} m.

(** The rows agree with the declared shape. *)
Definition matrix_wf {A : Type} (m : matrix A) : Prop :=
  length (rows m) = shape0 m /\
  Forall (fun r => length r = shape1 m) (rows m).

(** [m[i, j]], with [d] outside the array (never read by the code below on
    well-formed arrays). *)
Definition item {A : Type} (d : A) (m : matrix A) (i j : nat) : A :=
  default d (rows m !! i ≫= fun r => r !! j).

(** [m[i]]: one row as a 1D array. *)
Definition row {A : Type} (m : matrix A) (i : nat) : list A :=
  default [] (rows m !! i).

Definition build {A : Type} (n k : nat) (f : nat -> nat -> A) : matrix A :=
  Matrix n k (tabulate n (fun i => tabulate k (f i))).

(** An array argument of unknown dimension: the functions that test
    [ndim] receive one of these. *)
Inductive ndarray (A : Type) : Type :=
  | Array1 (v : list A)
  | Array2 (m : matrix A).
Arguments Array1 {A} v.
Arguments Array2 {A} m.

Definition ndim {A : Type} (a : ndarray A) : nat :=
  match a with
  | Array1 _ => 1
  | Array2 _ => 2
  end.

(** [words[indices]] (integer-array indexing): [IndexError] when an index
    is out of bounds. *)
Definition take_indices {A : Type} (words : list A) (indices : list nat)
  : result (list A) :=
  match mapM (fun i => words !! i) indices with
  | Some ws => Return ws
  | None => Raise IndexError
  end.

(** ** The ranking primitive *)

Section Ranking.
Context {Score : Type}.
(** The order of the score dtype, and numpy's [argsort]. *)
Variable leb : Score -> Score -> bool.
Variable argsort : list Score -> list nat.

(** [indices] of [_words_by_score], after the optional reversal. *)
Definition order_indices (score : list Score) (least_to_most : bool)
  : list nat :=
  let indices := argsort score in
  if negb least_to_most then reverse indices else indices.

Definition _words_by_score {A : Type} (words : list A) (score : list Score)
    (least_to_most : bool) (n : option Z) : result (list A) :=
  _ ← raise_if (negb (length words =? length score)) ValueError;
  _ ← raise_if (match n with
                | Some n => (n <=? 0)%Z || (Z.of_nat (length words) <? n)%Z
                | None => false
                end) ValueError;
  let indices := order_indices score least_to_most in
  ordered_words ← take_indices words indices;
  match n with
  | Some n => Return (take (Z.to_nat n) ordered_words)
  | None => Return ordered_words
  end.

(** Two scores tie when each is below the other. *)
Definition tie (a b : Score) : bool := leb a b && leb b a.

(** What every kind of [np.argsort] guarantees: a permutation of the
    positions that lists the scores in ascending order. *)
Definition ascending (score : list Score) (i j : nat) : Prop :=
  match score !! i, score !! j with
  | Some a, Some b => leb a b = true
  | _, _ => False
  end.

Record ArgsortSpec : Prop := {
  argsort_perm : forall score, argsort score ≡ₚ seq 0 (length score);
  argsort_sorted : forall score,
    StronglySorted (ascending score) (argsort score)
}.

(** A stable sort additionally keeps tied scores in original order.
    [_words_by_score] calls [np.argsort(score)] without [kind], and the
    default kind is not stable: this record is not an assumption about
    the code.  It only describes [stable_argsort] below, one of the many
    functions that meet [ArgsortSpec]. *)
Definition ascending_stable (score : list Score) (i j : nat) : Prop :=
  match score !! i, score !! j with
  | Some a, Some b => leb a b = true /\ (leb b a = true -> i < j)
  | _, _ => False
  end.

Record StableArgsortSpec : Prop := {
  stable_perm : forall score, argsort score ≡ₚ seq 0 (length score);
  stable_sorted : forall score,
    StronglySorted (ascending_stable score) (argsort score)
}.

(** Tie-breaking by original position, read position by position: of two
    positions of the output holding tied scores, the earlier one holds
    the lower original index. *)
Definition ties_lower_index_first (score : list Score) (indices : list nat)
  : Prop :=
  forall p q i j a b,
    p < q -> indices !! p = Some i -> indices !! q = Some j ->
    score !! i = Some a -> score !! j = Some b ->
    tie a b = true -> i < j.

(** [i] comes before [j] in an index list. *)
Definition comes_before (indices : list nat) (i j : nat) : Prop :=
  exists p q, p < q /\ indices !! p = Some i /\ indices !! q = Some j.

(** An executable function that meets [ArgsortSpec]: insertion sort of
    the (position, score) pairs.  It serves as a concrete instance where
    a theorem about every conforming [argsort] is run on an example; on
    tied scores numpy's default sort may return another order. *)
Fixpoint insert_scored (x : nat * Score) (l : list (nat * Score))
  : list (nat * Score) :=
  match l with
  | [] => [x]
  | y :: l' => if leb x.2 y.2 then x :: l else y :: insert_scored x l'
  end.

Definition sort_scored (l : list (nat * Score)) : list (nat * Score) :=
  foldr insert_scored [] l.

Definition stable_argsort (score : list Score) : list nat :=
  (sort_scored (zip (seq 0 (length score)) score)).*1.
End Ranking.

(** ** Array operations *)

Section ArrayOps.
Context {A : Type}.
Variable zero : A.
Variable add : A -> A -> A.

(** [v.sum()] of a 1D array. *)
Definition asum (v : list A) : A := foldr add zero v.

(** [m.sum(axis=0)]: one sum per column. *)
Definition sum_axis0 (m : matrix A) : list A :=
  tabulate (shape1 m)
    (fun j => asum (tabulate (shape0 m) (fun i => item zero m i j))).

(** [m.sum(axis=1)]: one sum per row. *)
Definition sum_axis1 (m : matrix A) : list A :=
  tabulate (shape0 m)
    (fun i => asum (tabulate (shape1 m) (fun j => item zero m i j))).

(** [m.T]. *)
Definition transpose (m : matrix A) : matrix A :=
  build (shape1 m) (shape0 m) (fun i j => item zero m j i).

(** [f(m)] elementwise, as [np.log(m)] or [scalar * m]. *)
Definition ewise1 (f : A -> A) (m : matrix A) : matrix A :=
  build (shape0 m) (shape1 m) (fun i j => f (item zero m i j)).

(** [m1 op m2] elementwise on arrays of one shape. *)
Definition ewise2 (f : A -> A -> A) (m1 m2 : matrix A) : matrix A :=
  build (shape0 m1) (shape1 m1)
    (fun i j => f (item zero m1 i j) (item zero m2 i j)).

(** [m op v] with the 1D array [v] broadcast along the rows of [m]. *)
Definition ewise_rows (f : A -> A -> A) (m : matrix A) (v : list A)
  : matrix A :=
  build (shape0 m) (shape1 m)
    (fun i j => f (item zero m i j) (default zero (v !! j))).
End ArrayOps.

(** [m[:, j]] of a boolean array. *)
Definition column (m : matrix bool) (j : nat) : list bool :=
  tabulate (shape0 m) (fun i => item false m i j).

(** [np.sum] of a boolean array: the number of [True] entries. *)
Definition count_true (v : list bool) : nat :=
  length (filter (fun b => b = true) v).

(** [itertools.combinations(l, 2)]. *)
Fixpoint combinations2 {A : Type} (l : list A) : list (A * A) :=
  match l with
  | [] => []
  | x :: l' => (pair x <$> l') ++ combinations2 l'
  end.

(** The binomial coefficient C(v, 2). *)
Definition choose2 (v : nat) : nat := v * (v - 1) / 2.

(** ** Statistics of document-term matrices *)

(** A numpy float obtained by dividing two counts. *)
Inductive npfloat : Type :=
  | NpFinite (q : Q)
  | NpInf
  | NpNaN.

(** A numpy scalar stored in the co-document dictionary: a count, or a
    float once [freq /= n_docs] has run. *)
Inductive npscalar : Type :=
  | NpInt (n : nat)
  | NpFloat (x : npfloat).

(** [a / b] on a numpy integer scalar [a] and an int [b] (true division):
    division by zero gives [inf] or [nan] with a warning, not an
    exception. *)
Definition true_divide (a b : nat) : npfloat :=
  if b =? 0 then (if a =? 0 then NpNaN else NpInf)
  else NpFinite (Z.of_nat a # Pos.of_nat b).

(** The value lies in the closed interval from 0 to 1. *)
Definition in_unit_interval (x : npscalar) : Prop :=
  match x with
  | NpFloat (NpFinite q) => (0 <= q /\ q <= 1)%Q
  | NpInt n => n <= 1
  | NpFloat _ => False
  end.

Definition qsum : list Q -> Q := asum 0%Q Qplus.


Definition get_term_frequencies (dtm : ndarray Q) : result (list Q) :=
  match dtm with
  | Array2 m => Return (sum_axis0 0%Q Qplus m)
  | _ => Raise ValueError
  end.

(** The body of the loop over word pairs: the number of documents holding
    both words, or its proportion.  The sparse branch flattens the same
    column as the dense one reads. *)
Definition pair_frequency (word_in_doc : matrix bool) (n_docs : nat)
    (proportions : bool) (w1 w2 : nat) : npscalar :=
  let w1_in_docs := column word_in_doc w1 in
  let w2_in_docs := column word_in_doc w2 in
  let freq := count_true (zip_with andb w1_in_docs w2_in_docs) in
  if proportions then NpFloat (true_divide freq n_docs) else NpInt freq.

Definition get_codoc_frequencies (dtm : ndarray Q) (min_val : Q)
    (proportions : bool) : result (gmap (nat * nat) npscalar) :=
  match dtm with
  | Array2 m =>
      let n_docs := shape0 m in
      let n_vocab := shape1 m in
      _ ← raise_if (n_vocab <? 2) ValueError;
      let word_in_doc :=
        build n_docs n_vocab (fun i j => Qle_bool min_val (item 0%Q m i j)) in
      Return (foldl
        (fun codoc_freq '(w1, w2) =>
           <[(w1, w2) :=
               pair_frequency word_in_doc n_docs proportions w1 w2]>
             codoc_freq)
        ∅ (combinations2 (seq 0 n_vocab)))
  | _ => Raise ValueError
  end.


(** ** Counts as 64-bit integers *)

(** A document-term matrix of counts has an integer dtype, and [np.sum]
    accumulates integers in [int64]: a sum that leaves the range wraps
    around without an error.  Addition with wrap-around is associative
    and commutative, so the order numpy adds in does not matter. *)
Module Int64.

Definition min_int : Z := (- 2 ^ 63)%Z.
Definition max_int : Z := (2 ^ 63 - 1)%Z.

(** The value stored when the exact result is [z]. *)
Definition wrap (z : Z) : Z := ((z + 2 ^ 63) mod 2 ^ 64 - 2 ^ 63)%Z.

Definition add (a b : Z) : Z := wrap (a + b).

(** [v.sum()] of a 1D [int64] array. *)
Definition isum : list Z -> Z := asum 0%Z add.

(** [a / b] on [int64] values: the quotient as a fraction.  numpy converts
    both to binary64 and returns the rounded quotient. *)
Definition true_divide (a b : Z) : Q := (inject_Z a / inject_Z b)%Q.

Definition get_term_frequencies (dtm : ndarray Z) : result (list Z) :=
  match dtm with
  | Array2 m => Return (sum_axis0 0%Z add m)
  | _ => Raise ValueError
  end.

Definition get_term_proportions (dtm : ndarray Z) : result (list Q) :=
  unnorm ← get_term_frequencies dtm;
  if (isum unnorm =? 0)%Z then Raise ValueError
  else Return ((fun x => true_divide x (isum unnorm)) <$> unnorm).

End Int64.

(** The sum of a list of integers, without wrap-around. *)
Definition zsum : list Z -> Z := asum 0%Z Z.add.

(** The number of tokens of a matrix of counts: the sum of all its
    entries, without wrap-around. *)
Definition token_count (m : matrix Z) : Z :=
  zsum (sum_axis1 0%Z Z.add m).

(** Every entry is a non-negative count (resp. zero). *)
Definition count_matrix (m : matrix Z) : Prop :=
  Forall (Forall (fun x => 0 <= x)%Z) (rows m).

Definition zero_matrix (m : matrix Z) : Prop :=
  Forall (Forall (fun x => x = 0%Z)) (rows m).

(** ** Extended reals: the exact values of float computations

    Finite values are real numbers and no operation rounds or overflows;
    [Binary64] below has the floats themselves. *)

Inductive xreal : Type :=
  | Finite (r : R)
  | PosInf
  | NegInf
  | NaN.

Definition Rsign (r : R) : comparison :=
  match total_order_T r 0 with
  | inleft (left _) => Lt
  | inleft (right _) => Eq
  | inright _ => Gt
  end.

(** The infinity of a given sign; [nan] for the sign of zero. *)
Definition signed_inf (c : comparison) : xreal :=
  match c with
  | Gt => PosInf
  | Lt => NegInf
  | Eq => NaN
  end.

Definition sign_mul (c1 c2 : comparison) : comparison :=
  match c1, c2 with
  | Eq, _ | _, Eq => Eq
  | Gt, c | c, Gt => c
  | Lt, Lt => Gt
  end.

(** The sign of a value that is not [nan]. *)
Definition xsign (x : xreal) : comparison :=
  match x with
  | Finite r => Rsign r
  | PosInf => Gt
  | NegInf => Lt
  | NaN => Eq
  end.

Definition xadd (x y : xreal) : xreal :=
  match x, y with
  | Finite a, Finite b => Finite (a + b)
  | NaN, _ | _, NaN => NaN
  | PosInf, NegInf | NegInf, PosInf => NaN
  | PosInf, _ | _, PosInf => PosInf
  | NegInf, _ | _, NegInf => NegInf
  end.

Definition xopp (x : xreal) : xreal :=
  match x with
  | Finite a => Finite (- a)
  | PosInf => NegInf
  | NegInf => PosInf
  | NaN => NaN
  end.

Definition xsub (x y : xreal) : xreal := xadd x (xopp y).

Definition xmul (x y : xreal) : xreal :=
  match x, y with
  | Finite a, Finite b => Finite (a * b)
  | NaN, _ | _, NaN => NaN
  | _, _ => signed_inf (sign_mul (xsign x) (xsign y))
  end.

Definition xdiv (x y : xreal) : xreal :=
  match x, y with
  | NaN, _ | _, NaN => NaN
  | Finite a, Finite b =>
      match Rsign b with
      | Eq => signed_inf (Rsign a)
      | _ => Finite (a / b)
      end
  | Finite _, _ => Finite 0
  | _, Finite b =>
      match Rsign b with
      | Lt => xopp x
      | _ => x
      end
  | _, _ => NaN
  end.

Definition xlog (x : xreal) : xreal :=
  match x with
  | Finite a =>
      match Rsign a with
      | Gt => Finite (ln a)
      | Eq => NegInf
      | Lt => NaN
      end
  | PosInf => PosInf
  | NegInf | NaN => NaN
  end.

(** The order numpy sorts floats in: [nan] last. *)
Definition xleb (x y : xreal) : bool :=
  match x, y with
  | _, NaN => true
  | NaN, _ => false
  | NegInf, _ => true
  | _, NegInf => false
  | _, PosInf => true
  | PosInf, _ => false
  | Finite a, Finite b => if Rle_dec a b then true else false
  end.

Definition xsum : list xreal -> xreal := asum (Finite 0) xadd.

(** ** Statistics of topic models: the exact values *)

Definition xtranspose := transpose NaN.
Definition xsum_axis0 := sum_axis0 (Finite 0) xadd.
Definition xsum_axis1 := sum_axis1 (Finite 0) xadd.

(** [phi[t, w] > 0] everywhere, and finite. *)
Definition positive_entry (x : xreal) : Prop :=
  match x with
  | Finite r => (0 < r)%R
  | _ => False
  end.

Definition nonneg_entry (x : xreal) : Prop :=
  match x with
  | Finite r => (0 <= r)%R
  | _ => False
  end.

Definition get_marginal_topic_distrib (doc_topic_distrib : matrix xreal)
    (doc_lengths : list xreal) : list xreal :=
  let unnorm :=
    xsum_axis1 (ewise_rows NaN xmul (xtranspose doc_topic_distrib)
                  doc_lengths) in
  (fun x => xdiv x (xsum unnorm)) <$> unnorm.

Definition get_marginal_word_distrib (topic_word_distrib : matrix xreal)
    (p_t : list xreal) : list xreal :=
  xsum_axis1 (ewise_rows NaN xmul (xtranspose topic_word_distrib) p_t).

Definition get_word_distinctiveness (topic_word_distrib : matrix xreal)
    (p_t : list xreal) : list xreal :=
  let topic_given_w :=
    ewise_rows NaN xdiv topic_word_distrib
      (xsum_axis0 topic_word_distrib) in
  xsum_axis0
    (ewise2 NaN xmul topic_given_w
       (xtranspose
          (ewise1 NaN xlog
             (ewise_rows NaN xdiv (xtranspose topic_given_w) p_t)))).

Definition get_word_saliency (topic_word_distrib doc_topic_distrib
    : matrix xreal) (doc_lengths : list xreal) : list xreal :=
  let p_t := get_marginal_topic_distrib doc_topic_distrib doc_lengths in
  let p_w := get_marginal_word_distrib topic_word_distrib p_t in
  zip_with xmul p_w (get_word_distinctiveness topic_word_distrib p_t).

Definition get_topic_word_relevance (topic_word_distrib doc_topic_distrib
    : matrix xreal) (doc_lengths : list xreal) (lambda_ : xreal)
    : matrix xreal :=
  let p_t := get_marginal_topic_distrib doc_topic_distrib doc_lengths in
  let p_w := get_marginal_word_distrib topic_word_distrib p_t in
  let logtw := ewise1 NaN xlog topic_word_distrib in
  let loglift :=
    ewise1 NaN xlog (ewise_rows NaN xdiv topic_word_distrib p_w) in
  ewise2 NaN xadd
    (ewise1 NaN (xmul lambda_) logtw)
    (ewise1 NaN (xmul (xsub (Finite 1) lambda_)) loglift).

(** ** Statistics of topic models in binary64 *)

(** The same functions on IEEE 754 binary64 numbers, the dtype of the
    arrays the code receives: every operation rounds to nearest, ties to
    even, and overflows to an infinity. *)
Module Binary64.

(** [v.sum()]: the entries are added one by one in index order, as numpy
    does on arrays of fewer than 8 entries (longer ones are summed in
    blocks).  The examples below sum two entries at most, where every
    order gives the same number. *)
Definition fsum (v : list float) : float := foldl PrimFloat.add 0%float v.

Definition sum_axis0 (m : matrix float) : list float :=
  tabulate (shape1 m)
    (fun j => fsum (tabulate (shape0 m) (fun i => item nan m i j))).

Definition sum_axis1 (m : matrix float) : list float :=
  tabulate (shape0 m)
    (fun i => fsum (tabulate (shape1 m) (fun j => item nan m i j))).

(** Zero or a finite non-zero number: neither an infinity nor a NaN. *)
Definition is_finite (x : float) : bool :=
  match Prim2SF x with
  | S754_zero _ | S754_finite _ _ _ => true
  | S754_infinity _ | S754_nan => false
  end.

(** Equal as numbers ([0.0] and [-0.0] are), or both NaN. *)
Definition same_value (x y : float) : bool :=
  (x =? y)%float || (PrimFloat.is_nan x && PrimFloat.is_nan y).

Definition get_marginal_topic_distrib (doc_topic_distrib : matrix float)
    (doc_lengths : list float) : list float :=
  let unnorm :=
    sum_axis1 (ewise_rows nan PrimFloat.mul (transpose nan doc_topic_distrib)
                 doc_lengths) in
  (fun x => x / fsum unnorm)%float <$> unnorm.

Definition get_marginal_word_distrib (topic_word_distrib : matrix float)
    (p_t : list float) : list float :=
  sum_axis1 (ewise_rows nan PrimFloat.mul (transpose nan topic_word_distrib)
               p_t).

Section Log.
(** The logarithm of the C library on the finite numbers above 0 other
    than 1; it is not part of this module, and its last bit differs
    between libraries. *)
Variable log_finite : float -> float.

(** [np.log] on one entry: the special cases are those of IEEE 754 and
    of the C standard (annex F), [log(1) = +0] among them. *)
Definition np_log (x : float) : float :=
  if PrimFloat.is_nan x then nan
  else if (x <? 0)%float then nan
  else if (x =? 0)%float then neg_infinity
  else if (x =? infinity)%float then infinity
  else if (x =? 1)%float then 0%float
  else log_finite x.

Definition get_word_distinctiveness (topic_word_distrib : matrix float)
    (p_t : list float) : list float :=
  let topic_given_w :=
    ewise_rows nan PrimFloat.div topic_word_distrib
      (sum_axis0 topic_word_distrib) in
  sum_axis0
    (ewise2 nan PrimFloat.mul topic_given_w
       (transpose nan
          (ewise1 nan np_log
             (ewise_rows nan PrimFloat.div (transpose nan topic_given_w)
                p_t)))).

(** The local arrays [logtw] and [loglift] of
    [get_topic_word_relevance]. *)
Definition logtw (topic_word_distrib : matrix float) : matrix float :=
  ewise1 nan np_log topic_word_distrib.

Definition loglift (topic_word_distrib doc_topic_distrib : matrix float)
    (doc_lengths : list float) : matrix float :=
  let p_t := get_marginal_topic_distrib doc_topic_distrib doc_lengths in
  let p_w := get_marginal_word_distrib topic_word_distrib p_t in
  ewise1 nan np_log (ewise_rows nan PrimFloat.div topic_word_distrib p_w).

Definition get_topic_word_relevance (topic_word_distrib doc_topic_distrib
    : matrix float) (doc_lengths : list float) (lambda_ : float)
    : matrix float :=
  ewise2 nan PrimFloat.add
    (ewise1 nan (PrimFloat.mul lambda_) (logtw topic_word_distrib))
    (ewise1 nan (PrimFloat.mul (1 - lambda_)%float)
       (loglift topic_word_distrib doc_topic_distrib doc_lengths)).
End Log.

End Binary64.

(** ** Words ranked by relevance, and topic labels *)

Section RelevantWords.
Context {Score : Type}.
Variable argsort : list Score -> list nat.

Definition _check_relevant_words_for_topic_args (vocab : list string)
    (rel_mat : ndarray Score) (topic : Z) : result unit :=
  match rel_mat with
  | Array2 m =>
      _ ← raise_if (negb (length vocab =? shape1 m)) ValueError;
      raise_if
        (negb ((0 <=? topic)%Z && (topic <? Z.of_nat (shape0 m))%Z))
        ValueError
  | _ => Raise ValueError
  end.

Definition get_most_relevant_words_for_topic (vocab : list string)
    (rel_mat : ndarray Score) (topic : Z) (n : option Z)
  : result (list string) :=
  _ ← _check_relevant_words_for_topic_args vocab rel_mat topic;
  match rel_mat with
  | Array2 m =>
      _words_by_score argsort vocab (row m (Z.to_nat topic)) false n
  | _ => Raise ValueError
  end.

Definition get_least_relevant_words_for_topic (vocab : list string)
    (rel_mat : ndarray Score) (topic : Z) (n : option Z)
  : result (list string) :=
  _ ← _check_relevant_words_for_topic_args vocab rel_mat topic;
  match rel_mat with
  | Array2 m =>
      _words_by_score argsort vocab (row m (Z.to_nat topic)) true n
  | _ => Raise ValueError
  end.
End RelevantWords.

(** [labels_format], parsed: literal text and the three placeholders. *)
Inductive format_piece : Type :=
  | Lit (s : string)
  | I0
  | I1
  | TopWords.

(** ['{i1}_{topwords}'], the default of [labels_format]. *)
Definition default_labels_format : list format_piece :=
  [I1; Lit "_"; TopWords].

(** [str(n)] of a non-negative int. *)
Definition str_of_nat (n : nat) : string :=
  NilEmpty.string_of_uint (Nat.to_uint n).

(** [labels_format.format(i0=i0, i1=i1, topwords=topwords)]. *)
Definition format_label (labels_format : list format_piece) (i0 i1 : nat)
    (topwords : string) : string :=
  String.concat ""
    ((fun p => match p with
               | Lit s => s
               | I0 => str_of_nat i0
               | I1 => str_of_nat i1
               | TopWords => topwords
               end) <$> labels_format).

(** [len(l) == len(set(l))]. *)
Definition all_unique `{EqDecision A} (l : list A) : bool :=
  length l =? length (remove_dups l).

(** The [for n in n_words] loop with its [break]; the accumulator is the
    variable [n_most_rel], which keeps its last value when the loop ends
    without a break. *)
Fixpoint search_n_most_rel (n_words : list nat)
    (most_rel_words : list (list string)) (n_most_rel : list (list string))
  : list (list string) :=
  match n_words with
  | [] => n_most_rel
  | n :: n_words' =>
      let n_most_rel := take n <$> most_rel_words in
      if all_unique n_most_rel then n_most_rel
      else search_n_most_rel n_words' most_rel_words n_most_rel
  end.

(** [most_rel_words]: the full ranking of every topic. *)
Definition topic_rankings (argsort : list xreal -> list nat)
    (vocab : list string) (rel_mat : matrix xreal) (n_topics : nat)
  : result (list (list string)) :=
  for_each
    (fun t => get_most_relevant_words_for_topic argsort vocab
                (Array2 rel_mat) (Z.of_nat t) None)
    (seq 0 n_topics).

(** The labels built from the chosen prefixes. *)
Definition format_labels (labels_glue : string)
    (labels_format : list format_piece) (n_most_rel : list (list string))
  : list string :=
  imap (fun i ws =>
          format_label labels_format i (i + 1) (String.concat labels_glue ws))
       n_most_rel.

Definition generate_topic_labels_from_top_words
    (argsort : list xreal -> list nat)
    (topic_word_distrib doc_topic_distrib : matrix xreal)
    (doc_lengths : list xreal) (vocab : list string) (n_words : option Z)
    (lambda_ : xreal) (labels_glue : string)
    (labels_format : list format_piece) : result (list string) :=
  let rel_mat :=
    get_topic_word_relevance topic_word_distrib doc_topic_distrib
      doc_lengths lambda_ in
  n_words ←
    match n_words with
    | None => Return (seq 1 (length vocab))
    | Some n =>
        _ ← raise_if
              (negb ((1 <=? n)%Z && (n <=? Z.of_nat (length vocab))%Z))
              ValueError;
        Return (seq (Z.to_nat n) 1)
    end;
  most_rel_words ←
    topic_rankings argsort vocab rel_mat (shape0 topic_word_distrib);
  let n_most_rel := search_n_most_rel n_words most_rel_words [] in
  _ ← raise_if (bool_decide (n_most_rel = [])) AssertionError;
  let topic_labels := format_labels labels_glue labels_format n_most_rel in
  _ ← raise_if (negb (all_unique topic_labels)) ValueError;
  Return topic_labels.

(** Ascending by score, and by position among tied scores: the order of
    the pairs that [sort_scored] produces. *)
Definition scored_le {Score : Type} (leb : Score -> Score -> bool)
    (x y : nat * Score) : Prop :=
  leb x.2 y.2 = true /\ (leb y.2 x.2 = true -> x.1 < y.1).

(** The per-topic tuples of the [n] most relevant words are pairwise
    distinct across topics. *)
Definition prefixes_distinct (most_rel_words : list (list string)) (n : nat)
  : Prop :=
  NoDup (take n <$> most_rel_words).

(** [n] is the prefix length the search of [n_words = None] settles on:
    the smallest one in [1, n_vocab] with pairwise-distinct tuples, or
    [n_vocab] itself when there is none. *)
Definition chosen_prefix_length (most_rel_words : list (list string))
    (n_vocab n : nat) : Prop :=
  1 <= n <= n_vocab /\
  ((prefixes_distinct most_rel_words n /\
    forall m, 1 <= m < n -> ~ prefixes_distinct most_rel_words m) \/
   (n = n_vocab /\
    forall m, 1 <= m <= n_vocab -> ~ prefixes_distinct most_rel_words m)).

(** No character of the string is an underscore (true of decimal
    numerals). *)
Fixpoint no_underscore (s : string) : Prop :=
  match s with
  | EmptyString => True
  | String c s' => c <> "_"%char /\ no_underscore s'
  end.

(** ** Concrete inputs used by the examples *)

(** Two topics over two words, one document. *)
Definition two_topic_phi : matrix xreal :=
  Matrix 2 2 [[Finite (3 / 4); Finite (1 / 4)];
              [Finite (1 / 4); Finite (3 / 4)]].

Definition one_doc_theta : matrix xreal :=
  Matrix 1 2 [[Finite (1 / 2); Finite (1 / 2)]].

(** Two topics with the same distribution over a one-word vocabulary. *)
Definition twin_topic_phi : matrix xreal :=
  Matrix 2 1 [[Finite 1]; [Finite 1]].

(** Three such topics, and their document. *)
Definition triplet_topic_phi : matrix xreal :=
  Matrix 3 1 [[Finite 1]; [Finite 1]; [Finite 1]].

Definition triplet_theta : matrix xreal :=
  Matrix 1 3 [[Finite (1 / 3); Finite (1 / 3); Finite (1 / 3)]].

(** No topic at all, over two words. *)
Definition no_topic_phi : matrix xreal := Matrix 0 2 [].

Definition no_topic_theta : matrix xreal := Matrix 1 0 [[]].

(** The document-term matrix of the worked scenario: three documents over
    three terms. *)
Definition scenario_dtm : matrix Q :=
  Matrix 3 3 [[1; 0; 2]; [0; 1; 1]; [1; 1; 0]]%Q.

(** A matrix without documents over two terms. *)
Definition no_doc_dtm : matrix Q := Matrix 0 2 [].

(** Binary64 inputs.  The logarithms the examples need, correctly
    rounded; [nan] marks the arguments they do not reach. *)
Definition example_log (x : float) : float :=
  if (x =? 0.25)%float then (-0x1.62e42fefa39efp+0)%float
  else if (x =? 0.5)%float then (-0x1.62e42fefa39efp-1)%float
  else if (x =? 0x1.5555555555555p-1)%float
       then (-0x1.9f323ecbf984dp-2)%float
  else if (x =? 0.75)%float then (-0x1.269621134db92p-2)%float
  else if (x =? 2)%float then 0x1.62e42fefa39efp-1%float
  else nan.

(** Two topics over two words, and one document made of the first topic
    alone. *)
Definition two_topic_phi64 : matrix float :=
  Matrix 2 2 [[0.25; 0.75]; [0.5; 0.5]]%float.

Definition first_topic_theta64 : matrix float :=
  Matrix 1 2 [[1; 0]]%float.

(** A first topic that gives its first word the probability [2^-1030]:
    the row still sums to 1 in binary64. *)
Definition rare_word_phi64 : matrix float :=
  Matrix 2 2 [[0x1p-1030; 1]; [0.5; 0.5]]%float.




(** The worked scenario as a matrix of counts, and a matrix whose four
    counts of [2^62] add up to [2^64]. *)
Definition scenario_counts : matrix Z :=
  Matrix 3 3 [[1; 0; 2]; [0; 1; 1]; [1; 1; 0]]%Z.

Definition overflow_counts : matrix Z :=
  Matrix 2 2 [[2 ^ 62; 2 ^ 62]; [2 ^ 62; 2 ^ 62]]%Z.

(** The real number behind a finite float. *)
Definition xval (x : xreal) : R :=
  match x with
  | Finite r => r
  | _ => 0%R
  end.

(** The sum of a list of reals, in the order [xsum] adds them. *)
Definition rsum (l : list R) : R := foldr Rplus 0%R l.

(** [v[i]] of a 1D float array. *)
Definition xitem (v : list xreal) (i : nat) : xreal := default NaN (v !! i).

(** A valid document-topic distribution: non-negative finite entries, every
    row summing to 1. *)
Definition row_stochastic (m : matrix xreal) : Prop :=
  Forall (Forall nonneg_entry) (rows m) /\
  Forall (fun r => xsum r = Finite 1) (rows m).

(** Valid document lengths: non-negative, with at least one token in the
    corpus. *)
Definition valid_doc_lengths (doc_lengths : list xreal) : Prop :=
  Forall nonneg_entry doc_lengths /\ Exists positive_entry doc_lengths.


(** ** The remaining functions of the module *)

(** [np.sum(dtm >= min_val, axis=0)], then the optional division by the
    number of documents (an array division: zero documents give NaN). *)
Definition get_doc_frequencies (dtm : ndarray Q) (min_val : Q)
    (proportions : bool) : result (list npscalar) :=
  match dtm with
  | Array2 m =>
      let word_in_doc :=
        build (shape0 m) (shape1 m)
          (fun i j => Qle_bool min_val (item 0%Q m i j)) in
      let doc_freq :=
        tabulate (shape1 m) (fun j => count_true (column word_in_doc j)) in
      if proportions
      then Return ((fun c => NpFloat (true_divide c (shape0 m))) <$> doc_freq)
      else Return (NpInt <$> doc_freq)
  | _ => Raise ValueError
  end.

Section ScoredWords.
Variable argsort : list xreal -> list nat.

Definition _words_by_salience_score (vocab : list string)
    (topic_word_distrib doc_topic_distrib : matrix xreal)
    (doc_lengths : list xreal) (n : option Z) (least_to_most : bool)
  : result (list string) :=
  let saliency :=
    get_word_saliency topic_word_distrib doc_topic_distrib doc_lengths in
  _words_by_score argsort vocab saliency least_to_most n.

Definition get_most_salient_words (vocab : list string)
    (topic_word_distrib doc_topic_distrib : matrix xreal)
    (doc_lengths : list xreal) (n : option Z) : result (list string) :=
  _words_by_salience_score vocab topic_word_distrib doc_topic_distrib
    doc_lengths n false.

Definition get_least_salient_words (vocab : list string)
    (topic_word_distrib doc_topic_distrib : matrix xreal)
    (doc_lengths : list xreal) (n : option Z) : result (list string) :=
  _words_by_salience_score vocab topic_word_distrib doc_topic_distrib
    doc_lengths n true.

Definition _words_by_distinctiveness_score (vocab : list string)
    (topic_word_distrib doc_topic_distrib : matrix xreal)
    (doc_lengths : list xreal) (n : option Z) (least_to_most : bool)
  : result (list string) :=
  let p_t := get_marginal_topic_distrib doc_topic_distrib doc_lengths in
  let distinct := get_word_distinctiveness topic_word_distrib p_t in
  _words_by_score argsort vocab distinct least_to_most n.

Definition get_most_distinct_words (vocab : list string)
    (topic_word_distrib doc_topic_distrib : matrix xreal)
    (doc_lengths : list xreal) (n : option Z) : result (list string) :=
  _words_by_distinctiveness_score vocab topic_word_distrib doc_topic_distrib
    doc_lengths n false.

Definition get_least_distinct_words (vocab : list string)
    (topic_word_distrib doc_topic_distrib : matrix xreal)
    (doc_lengths : list xreal) (n : option Z) : result (list string) :=
  _words_by_distinctiveness_score vocab topic_word_distrib doc_topic_distrib
    doc_lengths n true.
End ScoredWords.

(** The argument [n] of the ranking functions is absent or within
    [1, len(words)]. *)
Definition valid_top_n (n : option Z) (n_words : nat) : Prop :=
  match n with
  | Some k => (1 <= k <= Z.of_nat n_words)%Z
  | None => True
  end.

(** The scores at the positions listed by [indices] never decrease
    (resp. never increase) along the list. *)
Definition scores_ascend {Score : Type} (leb : Score -> Score -> bool)
    (score : list Score) (indices : list nat) : Prop :=
  forall p q i j a b,
    p < q -> indices !! p = Some i -> indices !! q = Some j ->
    score !! i = Some a -> score !! j = Some b -> leb a b = true.

Definition scores_descend {Score : Type} (leb : Score -> Score -> bool)
    (score : list Score) (indices : list nat) : Prop :=
  forall p q i j a b,
    p < q -> indices !! p = Some i -> indices !! q = Some j ->
    score !! i = Some a -> score !! j = Some b -> leb b a = true.

(** The format has no placeholder. *)
Definition literal_format (labels_format : list format_piece) : Prop :=
  Forall (fun p => match p with Lit _ => True | _ => False end)
    labels_format.

(** * Facts about the ranking primitive *)

Section RankingFacts.
Context {Score : Type}.
Variable leb : Score -> Score -> bool.

Lemma StronglySorted_lookup {A : Type} (R : relation A) (l : list A)
    (p q : nat) (x y : A) :
  StronglySorted R l -> p < q -> l !! p = Some x -> l !! q = Some y ->
  R x y.
Proof.
  intros Hs. revert p q. induction Hs as [|a l Hs IH Hall]; intros p q Hpq Hp Hq.
  - by rewrite lookup_nil in Hp.
  - destruct q as [|q]; [lia|]. destruct p as [|p]; simpl in *.
    + injection Hp as ->. rewrite Forall_forall in Hall.
      apply Hall. by eapply list_elem_of_lookup_2.
    + eapply IH; [|done..]. lia.
Qed.

Lemma take_indices_Return {A : Type} (words : list A) (indices : list nat)
    (out : list A) :
  take_indices words indices = Return out <->
  Forall2 (fun i w => words !! i = Some w) indices out.
Proof.
  unfold take_indices. rewrite <- mapM_Some.
  destruct (mapM _ indices); split; intros H; by simplify_eq.
Qed.

Lemma Forall2_Permutation_l {A B : Type} (P : A -> B -> Prop)
    (l l' : list A) (k' : list B) :
  l ≡ₚ l' -> Forall2 P l' k' -> exists k, Forall2 P l k /\ k ≡ₚ k'.
Proof.
  intros Hp. revert k'.
  induction Hp as [|x l l' Hp IH|x y l|l l' l'' Hp1 IH1 Hp2 IH2];
    intros k' HF.
  - inversion HF; subst. exists []. by split.
  - inversion HF as [|? b ? k1 Hx HF']; subst.
    destruct (IH _ HF') as (k & Hk & Hperm).
    exists (b :: k). split; [by constructor|by constructor].
  - inversion HF as [|? b ? k1 Hx HF']; subst.
    inversion HF' as [|? c ? k2 Hy HF'']; subst.
    exists (c :: b :: k2). split; [by repeat constructor|apply perm_swap].
  - destruct (IH2 _ HF) as (k1 & Hk1 & Hperm1).
    destruct (IH1 _ Hk1) as (k & Hk & Hperm).
    exists k. split; [done|by etrans].
Qed.

Lemma Forall2_lookup_seq {A : Type} (words : list A) :
  Forall2 (fun i w => words !! i = Some w) (seq 0 (length words)) words.
Proof.
  apply Forall2_same_length_lookup. split; [by rewrite length_seq|].
  intros i j w Hj Hw. apply lookup_seq in Hj as [-> _]. done.
Qed.

(** Indexing with a permutation of the positions returns a permutation of
    the array. *)
Lemma take_indices_Permutation {A : Type} (words : list A)
    (indices : list nat) :
  indices ≡ₚ seq 0 (length words) ->
  exists out, take_indices words indices = Return out /\ out ≡ₚ words.
Proof.
  intros Hp.
  destruct (Forall2_Permutation_l _ _ _ _ Hp (Forall2_lookup_seq words))
    as (out & HF & Hperm).
  exists out. split; [by apply take_indices_Return|done].
Qed.

Lemma order_indices_Permutation (argsort : list Score -> list nat)
    (score : list Score) (least_to_most : bool) :
  argsort score ≡ₚ seq 0 (length score) ->
  order_indices argsort score least_to_most ≡ₚ seq 0 (length score).
Proof.
  intros Hp. unfold order_indices.
  destruct least_to_most; simpl; [done|]. by rewrite reverse_Permutation.
Qed.

(** With equal shapes and no [n], the function is the indexing step. *)
Lemma words_by_score_None {A : Type} (argsort : list Score -> list nat)
    (words : list A) (score : list Score) (least_to_most : bool) :
  length words = length score ->
  _words_by_score argsort words score least_to_most None =
  take_indices words (order_indices argsort score least_to_most).
Proof.
  intros Hlen. unfold _words_by_score.
  rewrite Hlen, Nat.eqb_refl. simpl.
  by destruct (take_indices _ _).
Qed.

Lemma words_by_score_Permutation {A : Type}
    (argsort : list Score -> list nat) (words : list A)
    (score : list Score) (least_to_most : bool) :
  argsort score ≡ₚ seq 0 (length score) ->
  length words = length score ->
  exists out,
    _words_by_score argsort words score least_to_most None = Return out /\
    out ≡ₚ words.
Proof.
  intros Hp Hlen. rewrite words_by_score_None by done.
  apply take_indices_Permutation. rewrite Hlen.
  by apply order_indices_Permutation.
Qed.

Lemma StableArgsortSpec_ArgsortSpec (argsort : list Score -> list nat) :
  StableArgsortSpec leb argsort -> ArgsortSpec leb argsort.
Proof.
  intros [Hperm Hsorted]. split; [done|]. intros score.
  specialize (Hsorted score).
  induction Hsorted as [|i l Hs IH Hall]; constructor; [done|].
  eapply Forall_impl; [done|]. intros j. unfold ascending_stable, ascending.
  destruct (score !! i), (score !! j); tauto.
Qed.
End RankingFacts.

(** ** The insertion argsort meets the stable specification *)

Section StableArgsort.
Context {Score : Type}.
Variable leb : Score -> Score -> bool.
Hypothesis leb_total : forall a b, leb a b = false -> leb b a = true.
Hypothesis leb_trans :
  forall a b c, leb a b = true -> leb b c = true -> leb a c = true.

Lemma insert_scored_Permutation (x : nat * Score) (l : list (nat * Score)) :
  insert_scored leb x l ≡ₚ x :: l.
Proof.
  induction l as [|y l IH]; simpl; [done|].
  destruct (leb x.2 y.2); [done|]. rewrite IH. apply perm_swap.
Qed.

Lemma sort_scored_Permutation (l : list (nat * Score)) :
  sort_scored leb l ≡ₚ l.
Proof.
  induction l as [|x l IH]; simpl; [done|].
  by rewrite insert_scored_Permutation, IH.
Qed.

Lemma insert_scored_sorted (x : nat * Score) (l : list (nat * Score)) :
  StronglySorted (scored_le leb) l ->
  Forall (fun y => x.1 < y.1) l ->
  StronglySorted (scored_le leb) (insert_scored leb x l).
Proof.
  induction 1 as [|y l Hs IH Hall]; intros Hlt; simpl.
  - repeat constructor.
  - apply Forall_cons in Hlt as [Hxy Hlt].
    destruct (leb x.2 y.2) eqn:Hle.
    + constructor; [by constructor|]. constructor; [by split|].
      rewrite Forall_forall in Hall, Hlt |- *. intros z Hz.
      split; [|intros _; by apply Hlt].
      eapply leb_trans; [done|]. by apply Hall.
    + constructor; [by apply IH|].
      rewrite insert_scored_Permutation. constructor; [|done].
      split; [by apply leb_total|]. by rewrite Hle.
Qed.

Lemma sort_scored_sorted (l : list (nat * Score)) :
  StronglySorted (fun x y => x.1 < y.1) l ->
  StronglySorted (scored_le leb) (sort_scored leb l).
Proof.
  induction 1 as [|x l Hs IH Hall]; simpl; [constructor|].
  apply insert_scored_sorted; [done|].
  by rewrite sort_scored_Permutation.
Qed.

Lemma zip_seq_sorted (k : nat) (score : list Score) :
  StronglySorted (fun x y : nat * Score => x.1 < y.1)
    (zip (seq k (length score)) score).
Proof.
  revert k. induction score as [|a score IH]; intros k; simpl;
    constructor; [apply IH|].
  apply Forall_forall. intros [i b] Hin. simpl.
  apply elem_of_zip_l, elem_of_seq in Hin. lia.
Qed.

Lemma zip_seq_lookup (score : list Score) :
  Forall (fun p : nat * Score => score !! p.1 = Some p.2)
    (zip (seq 0 (length score)) score).
Proof.
  apply Forall_lookup. intros i [j a] Hi. simpl.
  apply lookup_zip_Some in Hi as [Hj Ha].
  apply lookup_seq in Hj as [-> _]. done.
Qed.

Lemma stable_argsort_Permutation (score : list Score) :
  stable_argsort leb score ≡ₚ seq 0 (length score).
Proof.
  unfold stable_argsort. rewrite sort_scored_Permutation.
  rewrite fst_zip; [done|]. by rewrite length_seq.
Qed.

Lemma fst_sorted (score : list Score) (l : list (nat * Score)) :
  Forall (fun p : nat * Score => score !! p.1 = Some p.2) l ->
  StronglySorted (scored_le leb) l ->
  StronglySorted (ascending_stable leb score) (l.*1).
Proof.
  intros Hl Hs. induction Hs as [|x l Hs IH Hall]; simpl; [constructor|].
  apply Forall_cons in Hl as [Hx Hl]. constructor; [by apply IH|].
  apply Forall_fmap, Forall_forall. intros y Hy. simpl.
  rewrite Forall_forall in Hall, Hl.
  unfold ascending_stable. rewrite Hx, (Hl y Hy). by apply Hall.
Qed.

Lemma stable_argsort_spec : StableArgsortSpec leb (stable_argsort leb).
Proof.
  split; [apply stable_argsort_Permutation|]. intros score.
  apply fst_sorted.
  - rewrite sort_scored_Permutation. apply zip_seq_lookup.
  - apply sort_scored_sorted, zip_seq_sorted.
Qed.
End StableArgsort.

Lemma Qle_bool_total (a b : Q) : Qle_bool a b = false -> Qle_bool b a = true.
Proof.
  intros H. apply Qle_bool_iff. apply Qlt_le_weak, Qnot_le_lt.
  intros Hle. apply Qle_bool_iff in Hle. congruence.
Qed.

Lemma Qle_bool_trans (a b c : Q) :
  Qle_bool a b = true -> Qle_bool b c = true -> Qle_bool a c = true.
Proof.
  rewrite !Qle_bool_iff. apply Qle_trans.
Qed.

Lemma xleb_total (a b : xreal) : xleb a b = false -> xleb b a = true.
Proof.
  destruct a as [x| | |], b as [y| | |]; simpl; try done.
  destruct (Rle_dec x y), (Rle_dec y x); try done. lra.
Qed.

Lemma xleb_trans (a b c : xreal) :
  xleb a b = true -> xleb b c = true -> xleb a c = true.
Proof.
  destruct a as [x| | |], b as [y| | |], c as [z| | |]; simpl; try done.
  destruct (Rle_dec x y), (Rle_dec y z), (Rle_dec x z); try done. lra.
Qed.

(** * The ranking primitive: permutation and tie-breaking *)

Open Scope string_scope.
Open Scope list_scope.
Open Scope nat_scope.

(** C9: for equal-length [words] and [score] and [n = None], the output of
    [_words_by_score] is a permutation of [words] (same length, same
    multiset of elements), for both values of [least_to_most], whenever
    [argsort] behaves as numpy documents. *)
Theorem words_by_score_is_permutation {Score A : Type}
    (leb : Score -> Score -> bool) (argsort : list Score -> list nat)
    (words : list A) (score : list Score) (least_to_most : bool) :
  ArgsortSpec leb argsort ->
  length words = length score ->
  exists out,
    _words_by_score argsort words score least_to_most None = Return out /\
    out ≡ₚ words /\ length out = length words.
Proof.
  intros [Hperm _] Hlen.
  destruct (words_by_score_Permutation argsort words score least_to_most
              (Hperm score) Hlen) as (out & Hout & Hp).
  exists out. split_and!; [done|done|by rewrite Hp].
Qed.

Lemma words_by_score_is_permutation_witness :
  exists out,
    _words_by_score (stable_argsort Qle_bool) ["a"; "b"; "c"]
      [3%Q; 1%Q; 2%Q] false None = Return out /\
    out ≡ₚ ["a"; "b"; "c"] /\ length out = 3.
Proof.
  apply (words_by_score_is_permutation Qle_bool (stable_argsort Qle_bool)).
  - apply StableArgsortSpec_ArgsortSpec, stable_argsort_spec.
    + exact Qle_bool_total.
    + exact Qle_bool_trans.
  - reflexivity.
Defined.

Lemma comes_before_reverse (indices : list nat) (i j : nat) :
  comes_before indices i j <-> comes_before (reverse indices) j i.
Proof.
  assert (forall l a b, comes_before l a b -> comes_before (reverse l) b a)
    as Hdir.
  { intros l a b (p & q & Hpq & Hp & Hq).
    pose proof (lookup_lt_Some _ _ _ Hq) as Hqlen.
    exists (length l - S q), (length l - S p). split_and!.
    - lia.
    - rewrite reverse_lookup by lia.
      by replace (length l - S (length l - S q)) with q by lia.
    - rewrite reverse_lookup by lia.
      by replace (length l - S (length l - S p)) with p by lia. }
  split; [apply Hdir|]. intros H. apply Hdir in H.
  by rewrite reverse_involutive in H.
Qed.

Lemma comes_before_asymmetric (indices : list nat) (i j : nat) :
  NoDup indices -> comes_before indices i j -> ~ comes_before indices j i.
Proof.
  intros Hnd (p & q & Hpq & Hp & Hq) (p' & q' & Hpq' & Hp' & Hq').
  pose proof (NoDup_lookup _ _ _ _ Hnd Hp Hq').
  pose proof (NoDup_lookup _ _ _ _ Hnd Hq Hp'). lia.
Qed.

Lemma comes_before_total (indices : list nat) (i j : nat) :
  i ∈ indices -> j ∈ indices -> i <> j ->
  comes_before indices i j \/ comes_before indices j i.
Proof.
  intros Hi Hj Hij.
  apply list_elem_of_lookup_1 in Hi as [p Hp].
  apply list_elem_of_lookup_1 in Hj as [q Hq].
  destruct (lt_eq_lt_dec p q) as [[Hlt | ->] | Hlt].
  - left. by exists p, q.
  - congruence.
  - right. by exists q, p.
Qed.

(** C1 (amended): the descending order is the exact reverse of the
    ascending one, whatever sort [np.argsort] runs.  Hence of two distinct
    items, tied or not, the one that comes first in one direction comes
    second in the other, and the lower original index comes first in
    exactly one of the two directions.  The output holds at position [p]
    the word whose original index is [indices[p]]. *)
Theorem words_by_score_ties_reversed {Score A : Type}
    (leb : Score -> Score -> bool) (argsort : list Score -> list nat)
    (words : list A) (score : list Score) :
  ArgsortSpec leb argsort ->
  length words = length score ->
  order_indices argsort score false =
    reverse (order_indices argsort score true) /\
  (forall i j,
     comes_before (order_indices argsort score true) i j <->
     comes_before (order_indices argsort score false) j i) /\
  (forall i j, i < j < length score ->
     comes_before (order_indices argsort score true) i j <->
     ~ comes_before (order_indices argsort score false) i j) /\
  forall least_to_most, exists out,
    _words_by_score argsort words score least_to_most None = Return out /\
    Forall2 (fun i w => words !! i = Some w)
      (order_indices argsort score least_to_most) out.
Proof.
  intros [Hperm Hsorted] Hlen. split_and!.
  - done.
  - intros i j. apply comes_before_reverse.
  - intros i j Hij. unfold order_indices. simpl.
    assert (NoDup (argsort score)) as Hnd.
    { rewrite Hperm. apply NoDup_seq. }
    assert (forall k, k < length score -> k ∈ argsort score) as Hin.
    { intros k Hk. rewrite Hperm. apply elem_of_seq. lia. }
    rewrite <- comes_before_reverse. split.
    + by apply comes_before_asymmetric.
    + intros Hno.
      destruct (comes_before_total (argsort score) i j) as [H | H];
        [apply Hin; lia|apply Hin; lia|lia|done|done].
  - intros least_to_most.
    destruct (words_by_score_Permutation argsort words score least_to_most
                (Hperm score) Hlen) as (out & Hout & _).
    exists out. split; [done|].
    rewrite words_by_score_None in Hout by done.
    by apply take_indices_Return.
Qed.

Lemma words_by_score_ties_reversed_witness :
  order_indices (stable_argsort Qle_bool) [1%Q; 1%Q; 0%Q] false =
    reverse (order_indices (stable_argsort Qle_bool) [1%Q; 1%Q; 0%Q] true) /\
  (forall i j,
     comes_before
       (order_indices (stable_argsort Qle_bool) [1%Q; 1%Q; 0%Q] true) i j <->
     comes_before
       (order_indices (stable_argsort Qle_bool) [1%Q; 1%Q; 0%Q] false) j i) /\
  (forall i j, i < j < 3 ->
     comes_before
       (order_indices (stable_argsort Qle_bool) [1%Q; 1%Q; 0%Q] true) i j <->
     ~ comes_before
         (order_indices (stable_argsort Qle_bool) [1%Q; 1%Q; 0%Q] false) i j) /\
  forall least_to_most, exists out,
    _words_by_score (stable_argsort Qle_bool) ["a"; "b"; "c"]
      [1%Q; 1%Q; 0%Q] least_to_most None = Return out /\
    Forall2 (fun i w => ["a"; "b"; "c"] !! i = Some w)
      (order_indices (stable_argsort Qle_bool) [1%Q; 1%Q; 0%Q] least_to_most)
      out.
Proof.
  apply (words_by_score_ties_reversed Qle_bool (stable_argsort Qle_bool)).
  - apply StableArgsortSpec_ArgsortSpec, stable_argsort_spec.
    + exact Qle_bool_total.
    + exact Qle_bool_trans.
  - reflexivity.
Defined.

(** Whatever [argsort] numpy runs, the two directions cannot both put the
    lower original index first on tied scores: one output is the reverse of
    the other. *)
Lemma tie_breaking_differs_between_directions
    (argsort : list Q -> list nat) :
  ArgsortSpec Qle_bool argsort ->
  ~ (ties_lower_index_first Qle_bool [1%Q; 1%Q]
       (order_indices argsort [1%Q; 1%Q] true) /\
     ties_lower_index_first Qle_bool [1%Q; 1%Q]
       (order_indices argsort [1%Q; 1%Q] false)).
Proof.
  intros [Hperm _] [Hasc Hdesc]. specialize (Hperm [1%Q; 1%Q]).
  unfold order_indices in *. simpl in *.
  symmetry in Hperm. apply Permutation_length_2_inv in Hperm as [Heq|Heq];
    rewrite Heq in Hasc, Hdesc.
  - specialize (Hdesc 0 1 1 0 1%Q 1%Q).
    assert (1 < 0) by (apply Hdesc; (lia || reflexivity)). lia.
  - specialize (Hasc 0 1 1 0 1%Q 1%Q).
    assert (1 < 0) by (apply Hasc; (lia || reflexivity)). lia.
Qed.

(** C1 as stated fails for every sort [np.argsort] can run: on the tied
    scores [1, 1] no conforming [argsort] puts the lower original index
    first in both directions. *)
Lemma words_by_score_lower_index_first_counterexample :
  ~ (exists argsort : list Q -> list nat,
       ArgsortSpec Qle_bool argsort /\
       ties_lower_index_first Qle_bool [1%Q; 1%Q]
         (order_indices argsort [1%Q; 1%Q] true) /\
       ties_lower_index_first Qle_bool [1%Q; 1%Q]
         (order_indices argsort [1%Q; 1%Q] false)).
Proof.
  intros (argsort & Hspec & Hasc & Hdesc).
  by apply (tie_breaking_differs_between_directions argsort Hspec).
Qed.

(** * Relevant words: the topic index check *)

Lemma check_relevant_words_topic_out_of_range {Score : Type}
    (vocab : list string) (m : matrix Score) (topic : Z) :
  length vocab = shape1 m ->
  ~ (0 <= topic < Z.of_nat (shape0 m))%Z ->
  _check_relevant_words_for_topic_args vocab (Array2 m) topic
    = Raise ValueError.
Proof.
  intros Hlen Hout. unfold _check_relevant_words_for_topic_args.
  rewrite Hlen, Nat.eqb_refl. simpl.
  destruct (0 <=? topic)%Z eqn:H0; [|done].
  destruct (topic <? Z.of_nat (shape0 m))%Z eqn:H1; [|done]. lia.
Qed.

(** C4 (amended): for a 2D relevance matrix whose column count is the
    length of [vocab] and a [topic] outside the row range, both getters
    fail with [ValueError], raised by the argument check. *)
Theorem relevant_words_topic_out_of_range {Score : Type}
    (argsort : list Score -> list nat) (vocab : list string)
    (m : matrix Score) (topic : Z) (n : option Z) :
  length vocab = shape1 m ->
  ~ (0 <= topic < Z.of_nat (shape0 m))%Z ->
  get_most_relevant_words_for_topic argsort vocab (Array2 m) topic n
    = Raise ValueError /\
  get_least_relevant_words_for_topic argsort vocab (Array2 m) topic n
    = Raise ValueError.
Proof.
  intros Hlen Hout.
  unfold get_most_relevant_words_for_topic,
    get_least_relevant_words_for_topic.
  by rewrite check_relevant_words_topic_out_of_range.
Qed.

Lemma relevant_words_topic_out_of_range_witness :
  get_most_relevant_words_for_topic (stable_argsort Qle_bool) ["a"; "b"]
    (Array2 (Matrix 1 2 [[0%Q; 1%Q]])) (-1) None = Raise ValueError /\
  get_least_relevant_words_for_topic (stable_argsort Qle_bool) ["a"; "b"]
    (Array2 (Matrix 1 2 [[0%Q; 1%Q]])) (-1) None = Raise ValueError.
Proof.
  apply (relevant_words_topic_out_of_range (stable_argsort Qle_bool)).
  - reflexivity.
  - simpl. lia.
Defined.

(** C4 as stated fails: the out-of-range topic 1 of a one-row matrix is
    rejected with [ValueError], not [IndexError]. *)
Lemma relevant_words_index_error_counterexample :
  get_most_relevant_words_for_topic (stable_argsort Qle_bool) ["a"]
    (Array2 (Matrix 1 1 [[0%Q]])) 1 None = Raise ValueError /\
  get_most_relevant_words_for_topic (stable_argsort Qle_bool) ["a"]
    (Array2 (Matrix 1 1 [[0%Q]])) 1 None <> Raise IndexError.
Proof. split; [reflexivity|discriminate]. Qed.

(** * Topic labels *)

Lemma length_remove_dups_le `{EqDecision A} (l : list A) :
  length (remove_dups l) <= length l.
Proof.
  induction l as [|x l IH]; simpl; [done|]. case_decide; simpl; lia.
Qed.

Lemma all_unique_NoDup `{EqDecision A} (l : list A) :
  all_unique l = true <-> NoDup l.
Proof.
  unfold all_unique. rewrite Nat.eqb_eq.
  induction l as [|x l IH]; simpl.
  - split; [constructor|done].
  - pose proof (length_remove_dups_le l) as Hle.
    rewrite NoDup_cons. case_decide as Hin; simpl.
    + split; [lia|tauto].
    + rewrite <- IH. split; [intros; split; [done|lia]|lia].
Qed.

Lemma no_underscore_string_of_uint (d : Decimal.uint) :
  no_underscore (NilEmpty.string_of_uint d).
Proof. induction d; simpl; try done; split; done. Qed.

Lemma no_underscore_prefix_inj (a b r r' : string) :
  no_underscore a -> no_underscore b ->
  (a ++ String "_" r = b ++ String "_" r')%string -> a = b.
Proof.
  revert b. induction a as [|c a IH]; intros [|c' b]; simpl;
    intros Ha Hb Heq.
  - done.
  - injection Heq as <- _. tauto.
  - injection Heq as -> _. tauto.
  - injection Heq as -> Heq. f_equal. apply IH; tauto.
Qed.

Lemma str_of_nat_inj (i j : nat) : str_of_nat i = str_of_nat j -> i = j.
Proof.
  unfold str_of_nat. intros H.
  assert (Some (Nat.to_uint i) = Some (Nat.to_uint j)) as Heq.
  { by rewrite <- !NilEmpty.usu, H. }
  injection Heq as Heq.
  by rewrite <- (Unsigned.of_to i), <- (Unsigned.of_to j), Heq.
Qed.

Lemma format_label_default (i0 i1 : nat) (topwords : string) :
  format_label default_labels_format i0 i1 topwords
  = (str_of_nat i1 ++ String "_" topwords)%string.
Proof. reflexivity. Qed.

(** With the default format every label starts with its own topic number,
    so the labels are pairwise distinct whatever the top words are. *)
Lemma format_labels_default_NoDup (labels_glue : string)
    (n_most_rel : list (list string)) :
  NoDup (format_labels labels_glue default_labels_format n_most_rel).
Proof.
  apply NoDup_alt. intros i j s Hi Hj. unfold format_labels in *.
  rewrite list_lookup_imap in Hi, Hj.
  destruct (n_most_rel !! i) as [wi|]; [|done].
  destruct (n_most_rel !! j) as [wj|]; [|done].
  simpl in *. injection Hi as <-. injection Hj as Heq.
  rewrite !format_label_default in Heq.
  apply no_underscore_prefix_inj in Heq;
    [|apply no_underscore_string_of_uint..].
  apply str_of_nat_inj in Heq. lia.
Qed.

Lemma search_n_most_rel_seq (most_rel_words : list (list string))
    (n_vocab k : nat) (n_most_rel : list (list string)) :
  (exists n,
      k <= n < k + n_vocab /\
      search_n_most_rel (seq k n_vocab) most_rel_words n_most_rel
        = take n <$> most_rel_words /\
      prefixes_distinct most_rel_words n /\
      forall m, k <= m < n -> ~ prefixes_distinct most_rel_words m) \/
  ((forall m, k <= m < k + n_vocab ->
      ~ prefixes_distinct most_rel_words m) /\
   search_n_most_rel (seq k n_vocab) most_rel_words n_most_rel
     = match n_vocab with
       | 0 => n_most_rel
       | S v => take (k + v) <$> most_rel_words
       end).
Proof.
  revert k n_most_rel.
  induction n_vocab as [|v IH]; intros k n_most_rel; simpl.
  - right. split; [intros m Hm; lia|done].
  - destruct (all_unique (take k <$> most_rel_words)) eqn:Hu.
    + left. exists k. split_and!; [lia|lia|done| |intros m Hm; lia].
      by apply all_unique_NoDup.
    + assert (~ prefixes_distinct most_rel_words k) as Hk.
      { unfold prefixes_distinct. rewrite <- all_unique_NoDup. congruence. }
      destruct (IH (S k) (take k <$> most_rel_words))
        as [(n & Hn & Hr & Hd & Hmin)|[Hnone Hr]].
      * left. exists n. split_and!; [lia|lia|done|done|].
        intros m Hm. destruct (decide (m = k)) as [->|]; [done|].
        apply Hmin. lia.
      * right. split.
        { intros m Hm. destruct (decide (m = k)) as [->|]; [done|].
          apply Hnone. lia. }
        rewrite Hr. destruct v as [|v']; [by rewrite Nat.add_0_r|].
        by replace (S k + v') with (k + S v') by lia.
Qed.

(** The search over [range(1, n_vocab + 1)] ends on the chosen prefix
    length. *)
Lemma search_n_most_rel_chosen (most_rel_words : list (list string))
    (n_vocab : nat) :
  1 <= n_vocab ->
  exists n,
    chosen_prefix_length most_rel_words n_vocab n /\
    search_n_most_rel (seq 1 n_vocab) most_rel_words []
      = take n <$> most_rel_words.
Proof.
  intros Hv.
  destruct (search_n_most_rel_seq most_rel_words n_vocab 1 [])
    as [(n & Hn & Hr & Hd & Hmin)|[Hnone Hr]].
  - exists n. split; [|done]. split; [lia|]. left. by split.
  - destruct n_vocab as [|v]; [lia|]. exists (S v). split; [|done].
    split; [lia|]. right. split; [done|]. intros m Hm. apply Hnone. lia.
Qed.

Lemma for_each_Return {A B : Type} (f : A -> result B) (xs : list A) :
  (forall x, x ∈ xs -> exists y, f x = Return y) ->
  exists ys, for_each f xs = Return ys /\ length ys = length xs.
Proof.
  induction xs as [|x xs IH]; intros Hf; simpl.
  - by exists [].
  - destruct (Hf x) as [y Hy]; [by left|].
    destruct IH as (ys & Hys & Hlen).
    { intros x' Hx'. apply Hf. by right. }
    exists (y :: ys). rewrite Hy, Hys. simpl. by rewrite Hlen.
Qed.

Lemma length_tabulate {A : Type} (n : nat) (f : nat -> A) :
  length (tabulate n f) = n.
Proof. unfold tabulate. by rewrite length_fmap, length_seq. Qed.

Lemma lookup_tabulate {A : Type} (n : nat) (f : nat -> A) (i : nat) :
  i < n -> tabulate n f !! i = Some (f i).
Proof.
  intros Hi. unfold tabulate. by rewrite list_lookup_fmap, lookup_seq_lt.
Qed.

Lemma row_build {A : Type} (n k : nat) (f : nat -> nat -> A) (i : nat) :
  i < n -> row (build n k f) i = tabulate k (f i).
Proof. intros Hi. unfold row, build. simpl. by rewrite lookup_tabulate. Qed.

Lemma item_build {A : Type} (d : A) (n k : nat) (f : nat -> nat -> A)
    (i j : nat) :
  i < n -> j < k -> item d (build n k f) i j = f i j.
Proof.
  intros Hi Hj. unfold item, build. simpl.
  rewrite lookup_tabulate by done. simpl. by rewrite lookup_tabulate.
Qed.

Lemma get_topic_word_relevance_shape (phi theta : matrix xreal)
    (doc_lengths : list xreal) (lambda_ : xreal) :
  exists f,
    get_topic_word_relevance phi theta doc_lengths lambda_
    = build (shape0 phi) (shape1 phi) f.
Proof. unfold get_topic_word_relevance, ewise2. by eexists. Qed.

(** Every topic of a relevance matrix gets a full ranking of the
    vocabulary. *)
Lemma topic_rankings_Return (argsort : list xreal -> list nat)
    (vocab : list string) (n k : nat) (f : nat -> nat -> xreal) :
  ArgsortSpec xleb argsort ->
  length vocab = k ->
  exists most_rel_words,
    topic_rankings argsort vocab (build n k f) n = Return most_rel_words /\
    length most_rel_words = n.
Proof.
  intros [Hperm _] Hlen. unfold topic_rankings.
  destruct (for_each_Return
    (fun t => get_most_relevant_words_for_topic argsort vocab
                (Array2 (build n k f)) (Z.of_nat t) None) (seq 0 n))
    as (ys & Hys & Hl).
  - intros t Ht. apply elem_of_seq in Ht.
    unfold get_most_relevant_words_for_topic,
      _check_relevant_words_for_topic_args. simpl.
    rewrite Hlen, Nat.eqb_refl. simpl.
    assert ((0 <=? Z.of_nat t)%Z = true) as -> by lia.
    assert ((Z.of_nat t <? Z.of_nat n)%Z = true) as -> by lia.
    simpl. rewrite Nat2Z.id, row_build by lia.
    destruct (words_by_score_Permutation argsort vocab
                (tabulate k (f t)) false) as (out & Hout & _).
    + apply Hperm.
    + by rewrite length_tabulate.
    + by exists out.
  - exists ys. by rewrite length_seq in Hl.
Qed.

Lemma for_each_length {A B : Type} (f : A -> result B) (xs : list A)
    (ys : list B) :
  for_each f xs = Return ys -> length ys = length xs.
Proof.
  revert ys. induction xs as [|x xs IH]; intros ys; simpl.
  - by intros [= <-].
  - destruct (f x) as [y|]; simpl; [|done].
    destruct (for_each f xs) as [ys'|]; simpl; [|done].
    intros [= <-]. simpl. by rewrite (IH ys').
Qed.

(** What the function does with [n_words = None] once the rankings are
    computed: it settles on the chosen prefix length, asserts that there is
    at least one topic, and checks the formatted labels. *)
Lemma generate_topic_labels_None (argsort : list xreal -> list nat)
    (phi theta : matrix xreal) (doc_lengths : list xreal)
    (vocab : list string) (lambda_ : xreal)
    (most_rel_words : list (list string)) :
  1 <= length vocab ->
  topic_rankings argsort vocab
    (get_topic_word_relevance phi theta doc_lengths lambda_) (shape0 phi)
    = Return most_rel_words ->
  exists n,
    chosen_prefix_length most_rel_words (length vocab) n /\
    forall labels_glue labels_format,
      generate_topic_labels_from_top_words argsort phi theta doc_lengths
        vocab None lambda_ labels_glue labels_format
      = if decide (shape0 phi = 0) then Raise AssertionError
        else
          let topic_labels :=
            format_labels labels_glue labels_format
              (take n <$> most_rel_words) in
          if all_unique topic_labels then Return topic_labels
          else Raise ValueError.
Proof.
  intros Hv Hr.
  destruct (search_n_most_rel_chosen most_rel_words (length vocab) Hv)
    as (n & Hn & Hs).
  exists n. split; [done|]. intros labels_glue labels_format.
  unfold generate_topic_labels_from_top_words. simpl.
  rewrite Hr. simpl. rewrite Hs.
  pose proof (for_each_length _ _ _ Hr) as Hlen.
  rewrite length_seq in Hlen.
  destruct most_rel_words as [|ws most_rel_words]; simpl in *.
  - rewrite <- Hlen. simpl. done.
  - rewrite <- Hlen. simpl.
    by destruct (all_unique _).
Qed.

(** C2 (amended): with [n_words = None], at least one topic and a
    non-empty vocabulary matching the columns of [phi], the function
    returns pairwise-distinct labels, one per topic; the number of top
    words used is the smallest prefix length for which the per-topic tuples
    are pairwise distinct when there is one, and the vocabulary size
    otherwise. *)
Theorem generate_topic_labels_unique_minimal
    (argsort : list xreal -> list nat) (phi theta : matrix xreal)
    (doc_lengths : list xreal) (vocab : list string) (lambda_ : xreal)
    (labels_glue : string) :
  ArgsortSpec xleb argsort ->
  length vocab = shape1 phi ->
  1 <= shape0 phi ->
  1 <= length vocab ->
  exists most_rel_words n,
    topic_rankings argsort vocab
      (get_topic_word_relevance phi theta doc_lengths lambda_) (shape0 phi)
      = Return most_rel_words /\
    chosen_prefix_length most_rel_words (length vocab) n /\
    let topic_labels :=
      format_labels labels_glue default_labels_format
        (take n <$> most_rel_words) in
    generate_topic_labels_from_top_words argsort phi theta doc_lengths
      vocab None lambda_ labels_glue default_labels_format
      = Return topic_labels /\
    NoDup topic_labels /\
    length topic_labels = shape0 phi.
Proof.
  intros Hspec Hlen Hk Hv.
  destruct (get_topic_word_relevance_shape phi theta doc_lengths lambda_)
    as [f Hf].
  destruct (topic_rankings_Return argsort vocab (shape0 phi) (shape1 phi) f
              Hspec Hlen) as (most_rel_words & Hr & Hl).
  rewrite <- Hf in Hr.
  destruct (generate_topic_labels_None argsort phi theta doc_lengths vocab
              lambda_ most_rel_words Hv Hr) as (n & Hn & Hg).
  exists most_rel_words, n. split_and!; [done|done|].
  cbv zeta. split_and!.
  - rewrite Hg. destruct (decide (shape0 phi = 0)); [lia|]. simpl.
    pose proof (format_labels_default_NoDup labels_glue
                  (take n <$> most_rel_words)) as Hnd.
    apply all_unique_NoDup in Hnd. by rewrite Hnd.
  - apply format_labels_default_NoDup.
  - unfold format_labels. by rewrite length_imap, length_fmap.
Qed.

Lemma stable_argsort_xleb_spec : ArgsortSpec xleb (stable_argsort xleb).
Proof.
  apply StableArgsortSpec_ArgsortSpec, stable_argsort_spec.
  - exact xleb_total.
  - exact xleb_trans.
Qed.

Lemma generate_topic_labels_unique_minimal_witness :
  exists most_rel_words n,
    topic_rankings (stable_argsort xleb) ["a"; "b"]
      (get_topic_word_relevance two_topic_phi one_doc_theta [Finite 1]
         (Finite 1)) (shape0 two_topic_phi)
      = Return most_rel_words /\
    chosen_prefix_length most_rel_words (length ["a"; "b"]) n /\
    let topic_labels :=
      format_labels "_" default_labels_format (take n <$> most_rel_words) in
    generate_topic_labels_from_top_words (stable_argsort xleb)
      two_topic_phi one_doc_theta [Finite 1] ["a"; "b"] None (Finite 1) "_"
      default_labels_format
      = Return topic_labels /\
    NoDup topic_labels /\
    length topic_labels = shape0 two_topic_phi.
Proof.
  apply (generate_topic_labels_unique_minimal (stable_argsort xleb)
           two_topic_phi one_doc_theta [Finite 1] ["a"; "b"] (Finite 1) "_").
  - exact stable_argsort_xleb_spec.
  - reflexivity.
  - simpl. lia.
  - simpl. lia.
Defined.

Lemma twin_prefixes_not_distinct (ws : list string)
    (rest : list (list string)) (n : nat) :
  ~ prefixes_distinct (ws :: ws :: rest) n.
Proof.
  unfold prefixes_distinct. simpl. rewrite NoDup_cons.
  intros [Hin _]. apply Hin. by left.
Qed.

(** C2 as stated fails on two topics with the same distribution: the
    labels are distinct, yet the one top word used per topic is not a
    prefix length with pairwise-distinct tuples, and there is none. *)
Lemma generate_topic_labels_twin_topics_counterexample :
  generate_topic_labels_from_top_words (stable_argsort xleb) twin_topic_phi
    one_doc_theta [Finite 1] ["a"] None (Finite 1) "_"
    default_labels_format
    = Return ["1_a"; "2_a"] /\
  topic_rankings (stable_argsort xleb) ["a"]
    (get_topic_word_relevance twin_topic_phi one_doc_theta [Finite 1]
       (Finite 1)) 2
    = Return [["a"]; ["a"]] /\
  forall n, ~ prefixes_distinct [["a"]; ["a"]] n.
Proof.
  split_and!; [reflexivity|reflexivity|].
  intros n. apply twin_prefixes_not_distinct.
Qed.

(** C3 (amended): with [n_words = None] and a non-empty vocabulary, when
    no prefix length up to the vocabulary size yields pairwise-distinct
    tuples, the assertion (which only rejects an empty tuple list) passes
    and the full rankings are used: the function returns the labels when
    they are pairwise distinct, as they always are with the default format,
    and raises [ValueError] otherwise. *)
Theorem generate_topic_labels_search_exhausted
    (argsort : list xreal -> list nat) (phi theta : matrix xreal)
    (doc_lengths : list xreal) (vocab : list string) (lambda_ : xreal)
    (labels_glue : string) (labels_format : list format_piece)
    (most_rel_words : list (list string)) :
  1 <= length vocab ->
  topic_rankings argsort vocab
    (get_topic_word_relevance phi theta doc_lengths lambda_) (shape0 phi)
    = Return most_rel_words ->
  (forall n, 1 <= n <= length vocab ->
     ~ prefixes_distinct most_rel_words n) ->
  let generate := generate_topic_labels_from_top_words argsort phi theta
                    doc_lengths vocab None lambda_ labels_glue in
  let topic_labels labels_format :=
    format_labels labels_glue labels_format
      (take (length vocab) <$> most_rel_words) in
  generate labels_format <> Raise AssertionError /\
  (NoDup (topic_labels labels_format) ->
     generate labels_format = Return (topic_labels labels_format)) /\
  (~ NoDup (topic_labels labels_format) ->
     generate labels_format = Raise ValueError) /\
  generate default_labels_format
    = Return (topic_labels default_labels_format).
Proof.
  intros Hv Hr Hnone generate topic_labels.
  destruct (generate_topic_labels_None argsort phi theta doc_lengths vocab
              lambda_ most_rel_words Hv Hr) as (n & [Hn Hchosen] & Hg).
  assert (n = length vocab) as ->.
  { destruct Hchosen as [[Hd _]|[-> _]]; [|done]. by destruct (Hnone n). }
  assert (shape0 phi <> 0) as Hk.
  { intros Hk. rewrite Hk in Hr. injection Hr as <-.
    apply (Hnone 1); [lia|]. constructor. }
  assert (forall fmt,
    generate fmt = if all_unique (topic_labels fmt)
                   then Return (topic_labels fmt) else Raise ValueError)
    as Hgen.
  { intros fmt. unfold generate. rewrite Hg. by case_decide. }
  split_and!.
  - rewrite Hgen. by destruct (all_unique _).
  - intros Hnd. rewrite Hgen. apply all_unique_NoDup in Hnd. by rewrite Hnd.
  - intros Hnd. rewrite Hgen. destruct (all_unique _) eqn:Hu; [|done].
    by apply all_unique_NoDup in Hu.
  - rewrite Hgen.
    pose proof (format_labels_default_NoDup labels_glue
                  (take (length vocab) <$> most_rel_words)) as Hnd.
    apply all_unique_NoDup in Hnd. unfold topic_labels. by rewrite Hnd.
Qed.

Lemma generate_topic_labels_search_exhausted_witness :
  let generate := generate_topic_labels_from_top_words (stable_argsort xleb)
                    twin_topic_phi one_doc_theta [Finite 1] ["a"] None
                    (Finite 1) "-" in
  let topic_labels labels_format :=
    format_labels "-" labels_format
      (take (length ["a"]) <$> [["a"]; ["a"]]) in
  generate [TopWords] <> Raise AssertionError /\
  (NoDup (topic_labels [TopWords]) ->
     generate [TopWords] = Return (topic_labels [TopWords])) /\
  (~ NoDup (topic_labels [TopWords]) ->
     generate [TopWords] = Raise ValueError) /\
  generate default_labels_format
    = Return (topic_labels default_labels_format).
Proof.
  apply (generate_topic_labels_search_exhausted (stable_argsort xleb)
           twin_topic_phi one_doc_theta [Finite 1] ["a"] (Finite 1) "-"
           [TopWords] [["a"]; ["a"]]).
  - simpl. lia.
  - reflexivity.
  - intros n _. apply twin_prefixes_not_distinct.
Defined.

(** C3 as stated fails on three topics with the same distribution: no
    prefix length separates them, yet the function returns labels and
    raises no assertion failure. *)
Lemma generate_topic_labels_no_assertion_counterexample :
  topic_rankings (stable_argsort xleb) ["w"]
    (get_topic_word_relevance triplet_topic_phi triplet_theta [Finite 2]
       (Finite 1)) 3
    = Return [["w"]; ["w"]; ["w"]] /\
  (forall n, ~ prefixes_distinct [["w"]; ["w"]; ["w"]] n) /\
  generate_topic_labels_from_top_words (stable_argsort xleb)
    triplet_topic_phi triplet_theta [Finite 2] ["w"] None (Finite 1) "_"
    default_labels_format
    = Return ["1_w"; "2_w"; "3_w"].
Proof.
  split_and!; [reflexivity| |reflexivity].
  intros n. apply twin_prefixes_not_distinct.
Qed.

Lemma search_n_most_rel_no_topic (n_words : list nat) :
  search_n_most_rel n_words [] [] = [].
Proof. by destruct n_words. Qed.

(** C10: with zero topics the function raises [AssertionError] instead of
    returning an empty list, for [n_words = None] and for every explicit
    [n_words] in the valid range: the tuple list is empty and the internal
    assertion rejects it. *)
Theorem generate_topic_labels_zero_topics
    (argsort : list xreal -> list nat) (phi theta : matrix xreal)
    (doc_lengths : list xreal) (vocab : list string) (n_words : option Z)
    (lambda_ : xreal) (labels_glue : string)
    (labels_format : list format_piece) :
  shape0 phi = 0 ->
  match n_words with
  | Some n => (1 <= n <= Z.of_nat (length vocab))%Z
  | None => True
  end ->
  generate_topic_labels_from_top_words argsort phi theta doc_lengths vocab
    n_words lambda_ labels_glue labels_format
  = Raise AssertionError.
Proof.
  intros Hk Hn. unfold generate_topic_labels_from_top_words.
  rewrite Hk. destruct n_words as [n|]; simpl.
  - assert ((1 <=? n)%Z = true) as -> by lia.
    assert ((n <=? Z.of_nat (length vocab))%Z = true) as -> by lia.
    simpl. done.
  - by rewrite search_n_most_rel_no_topic.
Qed.

Lemma generate_topic_labels_zero_topics_witness :
  generate_topic_labels_from_top_words (stable_argsort xleb) no_topic_phi
    no_topic_theta [Finite 3] ["a"; "b"] (Some 2%Z) (Finite 1) "_"
    default_labels_format
  = Raise AssertionError.
Proof.
  apply (generate_topic_labels_zero_topics (stable_argsort xleb)
           no_topic_phi no_topic_theta [Finite 3] ["a"; "b"] (Some 2%Z)).
  - reflexivity.
  - simpl. lia.
Defined.

(** * Sums over document-term matrices *)

Lemma tabulate_S {A : Type} (n : nat) (f : nat -> A) :
  tabulate (S n) f = tabulate n f ++ [f n].
Proof. unfold tabulate. by rewrite seq_S, fmap_app. Qed.

Lemma tabulate_ext {A : Type} (n : nat) (f g : nat -> A) :
  (forall i, i < n -> f i = g i) -> tabulate n f = tabulate n g.
Proof.
  intros Hfg. unfold tabulate. apply list_eq. intros i.
  rewrite !list_lookup_fmap.
  destruct (seq 0 n !! i) as [j|] eqn:Hj; simpl; [|done].
  apply lookup_seq in Hj as [-> Hi]. simpl. by rewrite Hfg.
Qed.

Lemma Forall_tabulate {A : Type} (P : A -> Prop) (n : nat) (f : nat -> A) :
  (forall i, i < n -> P (f i)) -> Forall P (tabulate n f).
Proof.
  intros Hf. unfold tabulate. apply Forall_fmap, Forall_forall.
  intros i Hi. apply elem_of_seq in Hi. simpl. apply Hf. lia.
Qed.







Lemma qsum_div (l : list Q) (t : Q) :
  (qsum ((fun x => x / t) <$> l) == qsum l / t)%Q.
Proof.
  unfold qsum, asum. induction l as [|x l IH]; simpl.
  - unfold Qdiv. ring.
  - rewrite IH. unfold Qdiv. ring.
Qed.


Lemma item_lookup {A : Type} (d : A) (m : matrix A) (i j : nat)
    (r : list A) (x : A) :
  rows m !! i = Some r -> r !! j = Some x -> item d m i j = x.
Proof. intros Hr Hx. unfold item. rewrite Hr. simpl. by rewrite Hx. Qed.

Lemma item_Forall {A : Type} (P : A -> Prop) (d : A) (m : matrix A)
    (i j : nat) :
  Forall (Forall P) (rows m) -> P d -> P (item d m i j).
Proof.
  intros Hm Hd. unfold item.
  destruct (rows m !! i) as [r|] eqn:Hr; simpl; [|done].
  destruct (r !! j) as [x|] eqn:Hx; simpl; [|done].
  eapply Forall_lookup_1; [|done]. by eapply Forall_lookup_1.
Qed.

(** On a well-formed matrix the entries at valid positions are all the
    entries of its rows. *)
Lemma matrix_wf_Forall {A : Type} (P : A -> Prop) (d : A) (m : matrix A) :
  matrix_wf m ->
  Forall (Forall P) (rows m) <->
  forall i j, i < shape0 m -> j < shape1 m -> P (item d m i j).
Proof.
  intros [Hrows Hcols]. split.
  - intros Hall i j Hi Hj.
    destruct (lookup_lt_is_Some_2 (rows m) i) as [r Hr]; [lia|].
    pose proof (Forall_lookup_1 _ _ _ _ Hcols Hr) as Hlen. simpl in Hlen.
    destruct (lookup_lt_is_Some_2 r j) as [x Hx]; [lia|].
    rewrite (item_lookup d m i j r x Hr Hx).
    eapply Forall_lookup_1; [|done]. by eapply Forall_lookup_1.
  - intros Hitem. apply Forall_lookup. intros i r Hr.
    apply Forall_lookup. intros j x Hx.
    pose proof (Forall_lookup_1 _ _ _ _ Hcols Hr) as Hlen. simpl in Hlen.
    rewrite <- (item_lookup d m i j r x Hr Hx). apply Hitem.
    + rewrite <- Hrows. by eapply lookup_lt_Some.
    + rewrite <- Hlen. by eapply lookup_lt_Some.
Qed.

(** * Term proportions *)

Lemma zsum_app (l1 l2 : list Z) : zsum (l1 ++ l2) = (zsum l1 + zsum l2)%Z.
Proof.
  unfold zsum, asum. induction l1 as [|x l1 IH]; simpl; [done|].
  rewrite IH. lia.
Qed.

Lemma zsum_tabulate_S (n : nat) (f : nat -> Z) :
  zsum (tabulate (S n) f) = (zsum (tabulate n f) + f n)%Z.
Proof. rewrite tabulate_S, zsum_app. unfold zsum, asum. simpl. lia. Qed.

Lemma zsum_tabulate_plus (n : nat) (f g : nat -> Z) :
  zsum (tabulate n (fun i => f i + g i)%Z)
  = (zsum (tabulate n f) + zsum (tabulate n g))%Z.
Proof.
  induction n as [|n IH]; [done|]. rewrite !zsum_tabulate_S, IH. lia.
Qed.

(** Summing by rows then columns, or by columns then rows. *)
Lemma zsum_tabulate_exchange (n k : nat) (f : nat -> nat -> Z) :
  zsum (tabulate n (fun i => zsum (tabulate k (fun j => f i j))))
  = zsum (tabulate k (fun j => zsum (tabulate n (fun i => f i j)))).
Proof.
  induction n as [|n IH].
  - simpl. induction k as [|k IHk]; [done|].
    rewrite zsum_tabulate_S, <- IHk. done.
  - rewrite zsum_tabulate_S, IH, <- zsum_tabulate_plus.
    f_equal. apply tabulate_ext. intros j _. by rewrite zsum_tabulate_S.
Qed.

Lemma zsum_tabulate_nonneg (n : nat) (f : nat -> Z) :
  (forall i, i < n -> (0 <= f i)%Z) -> (0 <= zsum (tabulate n f))%Z.
Proof.
  induction n as [|n IH]; intros Hf; [done|].
  rewrite zsum_tabulate_S.
  assert (0 <= zsum (tabulate n f))%Z by auto with lia.
  assert (0 <= f n)%Z by auto with lia. lia.
Qed.

Lemma zsum_tabulate_ge_term (n : nat) (f : nat -> Z) (i : nat) :
  (forall j, j < n -> (0 <= f j)%Z) -> i < n ->
  (f i <= zsum (tabulate n f))%Z.
Proof.
  induction n as [|n IH]; intros Hf Hi; [lia|].
  rewrite zsum_tabulate_S.
  assert (0 <= zsum (tabulate n f))%Z
    by (apply zsum_tabulate_nonneg; auto with lia).
  assert (0 <= f n)%Z by auto with lia.
  destruct (decide (i = n)) as [->|]; [lia|].
  assert (f i <= zsum (tabulate n f))%Z by (apply IH; auto with lia).
  lia.
Qed.

(** A sum of non-negative terms is zero exactly when every term is. *)
Lemma zsum_tabulate_zero_iff (n : nat) (f : nat -> Z) :
  (forall i, i < n -> (0 <= f i)%Z) ->
  zsum (tabulate n f) = 0%Z <-> forall i, i < n -> f i = 0%Z.
Proof.
  intros Hf. split.
  - intros H0 i Hi.
    pose proof (zsum_tabulate_ge_term n f i Hf Hi).
    specialize (Hf i Hi). lia.
  - intros H0. induction n as [|n IH]; [done|].
    rewrite zsum_tabulate_S, IH, (H0 n) by auto with lia. done.
Qed.

Lemma wrap_in_range (z : Z) :
  (Int64.min_int <= z <= Int64.max_int)%Z -> Int64.wrap z = z.
Proof.
  unfold Int64.min_int, Int64.max_int, Int64.wrap. intros Hz.
  rewrite Z.mod_small by lia. lia.
Qed.

(** Without overflow the [int64] sum of counts is their exact sum. *)
Lemma isum_exact (l : list Z) :
  Forall (fun x => 0 <= x)%Z l -> (zsum l <= Int64.max_int)%Z ->
  Int64.isum l = zsum l /\ (0 <= zsum l)%Z.
Proof.
  unfold Int64.isum, zsum, asum.
  induction 1 as [|x l Hx Hl IH]; simpl; intros Hmax; [done|].
  destruct IH as [-> H0].
  - unfold Int64.max_int in *.
    assert (0 <= foldr Z.add 0%Z l)%Z; [|lia].
    clear -Hl. induction Hl; simpl; lia.
  - split; [|lia]. unfold Int64.add. apply wrap_in_range.
    unfold Int64.min_int, Int64.max_int in *. lia.
Qed.

Lemma isum_tabulate_exact (n : nat) (f : nat -> Z) :
  (forall i, i < n -> (0 <= f i)%Z) ->
  (zsum (tabulate n f) <= Int64.max_int)%Z ->
  Int64.isum (tabulate n f) = zsum (tabulate n f).
Proof.
  intros Hf Hmax. apply isum_exact; [|done].
  by apply Forall_tabulate.
Qed.

Lemma qsum_inject_Z (l : list Z) :
  (qsum (inject_Z <$> l) == inject_Z (zsum l))%Q.
Proof.
  unfold qsum, zsum, asum. induction l as [|x l IH]; [reflexivity|].
  rewrite fmap_cons. cbn [foldr]. rewrite IH, inject_Z_plus. reflexivity.
Qed.

Lemma count_matrix_item (m : matrix Z) (i j : nat) :
  count_matrix m -> (0 <= item 0 m i j)%Z.
Proof. intros Hm. by apply (item_Forall (fun x => 0 <= x)%Z). Qed.

(** The term frequencies of a matrix of counts whose token count fits in
    [int64]: the exact column sums, each at most the token count and
    adding up to it. *)
Lemma term_frequencies_exact (m : matrix Z) :
  count_matrix m -> (token_count m <= Int64.max_int)%Z ->
  sum_axis0 0%Z Int64.add m = sum_axis0 0%Z Z.add m /\
  Int64.isum (sum_axis0 0%Z Z.add m) = token_count m /\
  zsum (sum_axis0 0%Z Z.add m) = token_count m /\
  Forall (fun x => 0 <= x <= token_count m)%Z (sum_axis0 0%Z Z.add m).
Proof.
  intros Hnn Hmax.
  set (col := fun j => zsum (tabulate (shape0 m) (fun i => item 0%Z m i j))).
  assert (sum_axis0 0%Z Z.add m = tabulate (shape1 m) col) as Hexact
    by done.
  assert (token_count m = zsum (tabulate (shape1 m) col)) as Htot.
  { unfold token_count, sum_axis1.
    apply (zsum_tabulate_exchange (shape0 m) (shape1 m)
             (fun i j => item 0%Z m i j)). }
  assert (forall j, j < shape1 m -> (0 <= col j <= token_count m)%Z) as Hcol.
  { intros j Hj.
    assert (forall j, j < shape1 m -> (0 <= col j)%Z) as Hcol.
    { intros j' _. apply zsum_tabulate_nonneg. intros i _.
      by apply count_matrix_item. }
    split; [by apply Hcol|].
    rewrite Htot. by apply zsum_tabulate_ge_term. }
  rewrite Hexact. split_and!.
  - unfold sum_axis0. apply tabulate_ext. intros j Hj.
    apply isum_tabulate_exact.
    + intros i _. by apply count_matrix_item.
    + fold (col j). specialize (Hcol j Hj). lia.
  - rewrite Htot. apply isum_tabulate_exact; [|lia].
    intros j Hj. by apply Hcol.
  - done.
  - by apply Forall_tabulate.
Qed.

Lemma token_count_zero_iff (m : matrix Z) :
  matrix_wf m -> count_matrix m ->
  token_count m = 0%Z <-> zero_matrix m.
Proof.
  intros Hwf Hnn. unfold zero_matrix.
  rewrite (matrix_wf_Forall (fun x => x = 0%Z) 0%Z m Hwf).
  unfold token_count, sum_axis1.
  rewrite zsum_tabulate_zero_iff.
  - split.
    + intros H0 i j Hi Hj. specialize (H0 i Hi).
      rewrite zsum_tabulate_zero_iff in H0; [by apply H0|].
      intros j' _. by apply count_matrix_item.
    + intros H0 i Hi. apply zsum_tabulate_zero_iff.
      * intros j' _. by apply count_matrix_item.
      * intros j Hj. by apply H0.
  - intros i _. apply zsum_tabulate_nonneg.
    intros j _. by apply count_matrix_item.
Qed.

Lemma get_term_proportions_unfold (m : matrix Z) :
  Int64.get_term_proportions (Array2 m)
  = if (Int64.isum (sum_axis0 0%Z Int64.add m) =? 0)%Z then Raise ValueError
    else Return
      ((fun x =>
          Int64.true_divide x (Int64.isum (sum_axis0 0%Z Int64.add m)))
         <$> sum_axis0 0%Z Int64.add m).
Proof. reflexivity. Qed.

(** C6 (amended): for a 2D matrix of non-negative counts whose token count
    fits in [int64], [get_term_proportions] returns a vector summing to 1
    whenever the token count is positive, and it raises [ValueError]
    exactly when the token count is zero, that is on the all-zero
    matrices. *)
Theorem get_term_proportions_sums_to_one_without_overflow (m : matrix Z) :
  matrix_wf m ->
  count_matrix m ->
  (token_count m <= Int64.max_int)%Z ->
  ((0 < token_count m)%Z ->
   exists v,
     Int64.get_term_proportions (Array2 m) = Return v /\
     length v = shape1 m /\ (qsum v == 1)%Q) /\
  (Int64.get_term_proportions (Array2 m) = Raise ValueError <->
   token_count m = 0%Z) /\
  (token_count m = 0%Z <-> zero_matrix m).
Proof.
  intros Hwf Hnn Hmax. rewrite get_term_proportions_unfold.
  destruct (term_frequencies_exact m Hnn Hmax) as (-> & -> & Hsum & _).
  destruct (token_count m =? 0)%Z eqn:Hz.
  - apply Z.eqb_eq in Hz. split_and!.
    + intros Hpos. lia.
    + done.
    + by apply token_count_zero_iff.
  - apply Z.eqb_neq in Hz. split_and!.
    + intros Hpos. eexists. split_and!; [done| |].
      * unfold sum_axis0. by rewrite length_fmap, length_tabulate.
      * unfold Int64.true_divide.
        rewrite (list_fmap_compose inject_Z
                   (fun q => q / inject_Z (token_count m))%Q).
        rewrite qsum_div, qsum_inject_Z, Hsum.
        field. intros H0. apply Hz.
        by apply (proj1 (inject_Z_injective (token_count m) 0)).
    + split; [done|]. intros H0. by destruct Hz.
    + by apply token_count_zero_iff.
Qed.

Lemma get_term_proportions_sums_to_one_without_overflow_witness :
  ((0 < token_count scenario_counts)%Z ->
   exists v,
     Int64.get_term_proportions (Array2 scenario_counts) = Return v /\
     length v = shape1 scenario_counts /\ (qsum v == 1)%Q) /\
  (Int64.get_term_proportions (Array2 scenario_counts) = Raise ValueError <->
   token_count scenario_counts = 0%Z) /\
  (token_count scenario_counts = 0%Z <-> zero_matrix scenario_counts).
Proof.
  apply (get_term_proportions_sums_to_one_without_overflow scenario_counts).
  - split; [reflexivity|]. repeat constructor.
  - repeat constructor; by vm_compute.
  - by vm_compute.
Defined.

(** C6 as stated fails when the sums leave [int64]: four counts of [2^62]
    add up to [2^64], which wraps to 0, and the function raises
    [ValueError] on a matrix that is not all-zero. *)
Lemma get_term_proportions_overflow_counterexample :
  matrix_wf overflow_counts /\
  Forall (Forall (fun x => 0 <= x <= Int64.max_int)%Z)
    (rows overflow_counts) /\
  (0 < token_count overflow_counts)%Z /\
  ~ zero_matrix overflow_counts /\
  Int64.get_term_proportions (Array2 overflow_counts) = Raise ValueError.
Proof.
  split_and!.
  - split; [reflexivity|]. repeat constructor.
  - repeat constructor; by vm_compute.
  - by vm_compute.
  - intros H. apply Forall_cons_1 in H as [H _].
    apply Forall_cons_1 in H as [H _]. by vm_compute in H.
  - by vm_compute.
Qed.

(** * Co-document frequencies *)

Lemma elem_of_combinations2_seq (k n a b : nat) :
  (a, b) ∈ combinations2 (seq k n) <-> k <= a /\ a < b /\ b < k + n.
Proof.
  revert k. induction n as [|n IH]; intros k; simpl.
  - rewrite elem_of_nil. lia.
  - rewrite elem_of_app, IH, list_elem_of_fmap. split.
    + intros [(c & [= -> ->] & Hc)|?]; [|lia].
      apply elem_of_seq in Hc. lia.
    + intros (Hk & Hab & Hb). destruct (decide (a = k)) as [->|]; [|right; lia].
      left. exists b. split; [done|]. apply elem_of_seq. lia.
Qed.

Lemma NoDup_combinations2_seq (k n : nat) : NoDup (combinations2 (seq k n)).
Proof.
  revert k. induction n as [|n IH]; intros k; simpl; [constructor|].
  apply NoDup_app. split_and!.
  - apply (NoDup_fmap_2 _), NoDup_seq.
  - intros [a b] Hin Hin'. apply list_elem_of_fmap in Hin as (c & [= -> ->] & _).
    apply elem_of_combinations2_seq in Hin'. lia.
  - apply IH.
Qed.

Lemma length_combinations2 {A : Type} (l : list A) :
  2 * length (combinations2 l) = length l * (length l - 1).
Proof.
  induction l as [|x l IH]; simpl; [done|].
  rewrite length_app, length_fmap. destruct l; simpl in *; lia.
Qed.

Lemma length_combinations2_choose2 {A : Type} (l : list A) :
  length (combinations2 l) = choose2 (length l).
Proof.
  unfold choose2. rewrite <- length_combinations2.
  by rewrite Nat.mul_comm, Nat.div_mul.
Qed.

(** The dictionary after the loop: every pair of the iteration is a key,
    bound to the value computed for it. *)
Lemma foldl_insert_lookup {V : Type} (g : nat -> nat -> V)
    (l : list (nat * nat)) (m0 : gmap (nat * nat) V) (k : nat * nat) :
  foldl (fun acc '(w1, w2) => <[(w1, w2) := g w1 w2]> acc) m0 l !! k
  = if decide (k ∈ l) then Some (g k.1 k.2) else m0 !! k.
Proof.
  revert m0. induction l as [|[w1 w2] l IH]; intros m0.
  - rewrite decide_False; [done|apply not_elem_of_nil].
  - simpl. rewrite IH. destruct (decide (k ∈ l)) as [Hin|Hnin].
    + rewrite decide_True; [done|by right].
    + destruct (decide (k = (w1, w2))) as [->|Hne].
      * rewrite lookup_insert_eq. rewrite decide_True; [done|by left].
      * rewrite lookup_insert_ne by done. rewrite decide_False; [done|].
        rewrite elem_of_cons. tauto.
Qed.

Lemma foldl_insert_size {V : Type} (g : nat -> nat -> V)
    (l : list (nat * nat)) :
  NoDup l ->
  size (foldl (fun acc '(w1, w2) => <[(w1, w2) := g w1 w2]> acc)
          (∅ : gmap (nat * nat) V) l)
  = length l.
Proof.
  intros Hnd. rewrite <- size_dom, <- (size_list_to_set (C := gset _) l Hnd).
  f_equal. apply set_eq. intros k.
  rewrite elem_of_dom, foldl_insert_lookup, elem_of_list_to_set.
  case_decide; [by split|]. rewrite lookup_empty.
  split; [by intros [? ?]|done].
Qed.

Lemma count_true_le (v : list bool) : count_true v <= length v.
Proof. unfold count_true. apply length_filter. Qed.

Lemma true_divide_unit_interval (a b : nat) :
  1 <= b -> a <= b -> in_unit_interval (NpFloat (true_divide a b)).
Proof.
  intros Hb Hab. unfold true_divide.
  destruct (b =? 0) eqn:Hb0; [apply Nat.eqb_eq in Hb0; lia|]. simpl.
  assert (Z.pos (Pos.of_nat b) = Z.of_nat b) as Hpos.
  { rewrite <- positive_nat_Z, Nat2Pos.id; lia. }
  unfold Qle. simpl. rewrite Hpos. lia.
Qed.

Lemma pair_frequency_unit_interval (n_vocab : nat)
    (f : nat -> nat -> bool) (n_docs w1 w2 : nat) :
  1 <= n_docs ->
  in_unit_interval
    (pair_frequency (build n_docs n_vocab f) n_docs true w1 w2).
Proof.
  intros Hd. unfold pair_frequency.
  apply true_divide_unit_interval; [done|].
  etrans; [apply count_true_le|].
  rewrite length_zip_with. unfold column. simpl.
  rewrite !length_tabulate. lia.
Qed.

(** C7 (amended): for a 2D [dtm] with vocabulary size [v], the function
    fails with [ValueError] when [v < 2]; otherwise it returns a mapping
    with exactly C(v,2) entries whose keys are the strictly increasing
    pairs below [v], and with [proportions = True] every value lies in the
    closed interval from 0 to 1 as soon as the matrix has a document. *)
Theorem get_codoc_frequencies_pairs (m : matrix Q) (min_val : Q)
    (proportions : bool) :
  match get_codoc_frequencies (Array2 m) min_val proportions with
  | Raise e => e = ValueError /\ shape1 m < 2
  | Return codoc_freq =>
      2 <= shape1 m /\
      size codoc_freq = choose2 (shape1 m) /\
      (forall w1 w2,
         is_Some (codoc_freq !! (w1, w2)) <-> w1 < w2 /\ w2 < shape1 m) /\
      (proportions = true -> 1 <= shape0 m ->
       forall k x, codoc_freq !! k = Some x -> in_unit_interval x)
  end.
Proof.
  unfold get_codoc_frequencies.
  destruct (shape1 m <? 2) eqn:Hv; simpl.
  - apply Nat.ltb_lt in Hv. by split.
  - apply Nat.ltb_ge in Hv. split_and!.
    + done.
    + rewrite foldl_insert_size by apply NoDup_combinations2_seq.
      by rewrite length_combinations2_choose2, length_seq.
    + intros w1 w2. rewrite foldl_insert_lookup.
      pose proof (elem_of_combinations2_seq 0 (shape1 m) w1 w2) as Hin.
      case_decide as Hd.
      * split; [intros _; apply Hin in Hd; lia|by eexists].
      * rewrite lookup_empty. split; [by intros [? ?]|].
        intros Hw. destruct Hd. apply Hin. lia.
    + intros -> Hd k x. rewrite foldl_insert_lookup.
      case_decide; [|by rewrite lookup_empty].
      intros [= <-]. by apply pair_frequency_unit_interval.
Qed.

(** C7 as stated fails on a matrix without documents: the proportion of
    the only pair is 0/0, which is NaN and lies outside [0, 1]. *)
Lemma get_codoc_frequencies_no_docs_counterexample :
  get_codoc_frequencies (Array2 no_doc_dtm) 1 true
    = Return {[ (0, 1) := NpFloat NpNaN ]} /\
  ~ in_unit_interval (NpFloat NpNaN).
Proof. split; [reflexivity|by intros []]. Qed.

Lemma get_codoc_frequencies_pairs_witness :
  exists codoc_freq,
    get_codoc_frequencies (Array2 scenario_dtm) 1 true = Return codoc_freq /\
    size codoc_freq = 3 /\
    forall k x, codoc_freq !! k = Some x -> in_unit_interval x.
Proof.
  pose proof (get_codoc_frequencies_pairs scenario_dtm 1 true) as H.
  destruct (get_codoc_frequencies (Array2 scenario_dtm) 1 true)
    as [codoc_freq|e] eqn:Hg; [|discriminate Hg].
  destruct H as (_ & Hsize & _ & Hunit).
  exists codoc_freq. split_and!; [done|done|].
  apply Hunit; [reflexivity|simpl; lia].
Defined.

(** * Finite sums of extended reals *)

Lemma build_ext {A : Type} (n k : nat) (f g : nat -> nat -> A) :
  (forall i j, i < n -> j < k -> f i j = g i j) -> build n k f = build n k g.
Proof.
  intros Hfg. unfold build. f_equal. apply tabulate_ext. intros i Hi.
  apply tabulate_ext. intros j Hj. by apply Hfg.
Qed.

Lemma xsum_Finite (l : list R) : xsum (Finite <$> l) = Finite (rsum l).
Proof.
  unfold xsum, asum, rsum. induction l as [|x l IH]; [done|].
  rewrite fmap_cons. cbn [foldr]. by rewrite IH.
Qed.

Lemma xsum_tabulate_Finite (n : nat) (g : nat -> xreal) (f : nat -> R) :
  (forall i, i < n -> g i = Finite (f i)) ->
  xsum (tabulate n g) = Finite (rsum (tabulate n f)).
Proof.
  intros Hg. rewrite (tabulate_ext n g (fun i => Finite (f i)) Hg).
  unfold tabulate. rewrite (list_fmap_compose f Finite). apply xsum_Finite.
Qed.

Lemma rsum_app (l1 l2 : list R) : rsum (l1 ++ l2) = (rsum l1 + rsum l2)%R.
Proof.
  unfold rsum. induction l1 as [|x l1 IH]; simpl; [lra|]. rewrite IH. lra.
Qed.

Lemma rsum_tabulate_S (n : nat) (f : nat -> R) :
  rsum (tabulate (S n) f) = (rsum (tabulate n f) + f n)%R.
Proof. rewrite tabulate_S, rsum_app. unfold rsum. simpl. lra. Qed.

Lemma rsum_tabulate_le (n : nat) (f g : nat -> R) :
  (forall i, i < n -> (f i <= g i)%R) ->
  (rsum (tabulate n f) <= rsum (tabulate n g))%R.
Proof.
  induction n as [|n IH]; intros Hfg; [apply Rle_refl|].
  rewrite !rsum_tabulate_S.
  apply Rplus_le_compat; auto with lia.
Qed.

Lemma rsum_tabulate_zero (n : nat) : rsum (tabulate n (fun _ => 0%R)) = 0%R.
Proof.
  induction n as [|n IH]; [done|]. rewrite rsum_tabulate_S, IH. lra.
Qed.

Lemma rsum_tabulate_nonneg (n : nat) (f : nat -> R) :
  (forall i, i < n -> (0 <= f i)%R) -> (0 <= rsum (tabulate n f))%R.
Proof.
  intros Hf. rewrite <- (rsum_tabulate_zero n). by apply rsum_tabulate_le.
Qed.

(** A sum of non-negative terms is at least each of its terms. *)
Lemma rsum_tabulate_ge_term (n : nat) (f : nat -> R) (i : nat) :
  (forall j, j < n -> (0 <= f j)%R) -> i < n ->
  (f i <= rsum (tabulate n f))%R.
Proof.
  induction n as [|n IH]; intros Hf Hi; [lia|].
  rewrite rsum_tabulate_S.
  pose proof (rsum_tabulate_nonneg n f) as Hs.
  pose proof (Hf n) as Hn.
  destruct (decide (i = n)) as [->|].
  - assert (0 <= rsum (tabulate n f))%R by auto with lia. lra.
  - assert (f i <= rsum (tabulate n f))%R by (apply IH; auto with lia).
    assert (0 <= f n)%R by auto with lia. lra.
Qed.



Lemma rsum_tabulate_fmap (l : list xreal) :
  rsum (xval <$> l) = rsum (tabulate (length l) (fun i => xval (xitem l i))).
Proof.
  induction l as [|x l IH] using rev_ind; [done|].
  rewrite fmap_app, rsum_app, length_app, Nat.add_1_r, rsum_tabulate_S.
  simpl. rewrite IH. f_equal.
  - f_equal. apply tabulate_ext. intros i Hi. unfold xitem.
    by rewrite lookup_app_l.
  - unfold xitem. rewrite list_lookup_middle by done. unfold rsum. simpl. lra.
Qed.

Lemma rsum_tabulate_pos_exists (n : nat) (f : nat -> R) :
  (forall i, i < n -> (0 <= f i)%R) ->
  (0 < rsum (tabulate n f))%R ->
  exists i, i < n /\ (0 < f i)%R.
Proof.
  induction n as [|n IH]; intros Hf Hpos.
  - unfold rsum in Hpos. simpl in Hpos. lra.
  - rewrite rsum_tabulate_S in Hpos.
    destruct (Rlt_dec 0 (f n)) as [Hn|Hn]; [exists n; split; [lia|done]|].
    assert (0 <= f n)%R by auto with lia.
    destruct IH as (i & Hi & Hfi); [auto with lia|lra|].
    exists i. split; [lia|done].
Qed.

Lemma rsum_tabulate_pos (n : nat) (f : nat -> R) (i : nat) :
  (forall j, j < n -> (0 <= f j)%R) -> i < n -> (0 < f i)%R ->
  (0 < rsum (tabulate n f))%R.
Proof.
  intros Hf Hi Hfi. pose proof (rsum_tabulate_ge_term n f i Hf Hi). lra.
Qed.

(** * Entries of the array operations *)

Lemma Rsign_pos (r : R) : (0 < r)%R -> Rsign r = Gt.
Proof.
  intros Hr. unfold Rsign. destruct (total_order_T r 0) as [[?|?]|?]; [lra|lra|done].
Qed.

Lemma positive_entry_Finite (x : xreal) :
  positive_entry x -> x = Finite (xval x) /\ (0 < xval x)%R.
Proof. by destruct x. Qed.

Lemma nonneg_entry_Finite (x : xreal) :
  nonneg_entry x -> x = Finite (xval x) /\ (0 <= xval x)%R.
Proof. by destruct x. Qed.

Lemma xitem_Forall (P : xreal -> Prop) (v : list xreal) (i : nat) :
  Forall P v -> i < length v -> P (xitem v i).
Proof.
  intros Hv Hi. unfold xitem.
  destruct (lookup_lt_is_Some_2 v i Hi) as [x Hx]. rewrite Hx. simpl.
  by eapply Forall_lookup_1.
Qed.

Lemma xitem_tabulate (n : nat) (f : nat -> xreal) (i : nat) :
  i < n -> xitem (tabulate n f) i = f i.
Proof. intros Hi. unfold xitem. by rewrite lookup_tabulate. Qed.

Lemma xdiv_Finite_pos (a b : R) :
  (0 < b)%R -> xdiv (Finite a) (Finite b) = Finite (a / b).
Proof. intros Hb. unfold xdiv. by rewrite Rsign_pos. Qed.

Lemma xlog_Finite_pos (a : R) : (0 < a)%R -> xlog (Finite a) = Finite (ln a).
Proof. intros Ha. unfold xlog. by rewrite Rsign_pos. Qed.

(** [(m.T * v).sum(axis=1)] on finite entries: the sums of the columns of
    [m] weighted by [v]. *)
Lemma weighted_column_sums_Finite (m : matrix xreal) (v : list xreal)
    (a : nat -> nat -> R) (b : nat -> R) :
  (forall i j, i < shape0 m -> j < shape1 m ->
     item NaN m i j = Finite (a i j)) ->
  (forall i, i < shape0 m -> xitem v i = Finite (b i)) ->
  xsum_axis1 (ewise_rows NaN xmul (xtranspose m) v)
  = tabulate (shape1 m)
      (fun j => Finite (rsum (tabulate (shape0 m)
                                (fun i => (a i j * b i)%R)))).
Proof.
  intros Ha Hb. unfold xsum_axis1, sum_axis1, ewise_rows, xtranspose,
    transpose. simpl.
  apply tabulate_ext. intros j Hj. apply xsum_tabulate_Finite.
  intros i Hi. rewrite !item_build by done.
  fold (xitem v i). by rewrite Ha, Hb.
Qed.

(** * Exact marginal distributions on valid inputs *)

Lemma fmap_tabulate {A B : Type} (g : A -> B) (n : nat) (f : nat -> A) :
  g <$> tabulate n f = tabulate n (fun i => g (f i)).
Proof. unfold tabulate. by rewrite <- list_fmap_compose. Qed.

Lemma nonneg_entries_Finite (r : list xreal) :
  Forall nonneg_entry r -> r = Finite <$> (xval <$> r).
Proof.
  induction 1 as [|x r Hx Hr IH]; [done|].
  apply nonneg_entry_Finite in Hx as [Hx _].
  rewrite !fmap_cons. by f_equal.
Qed.

(** A row of non-negative entries summing to 1 has a positive entry. *)
Lemma stochastic_row_positive (r : list xreal) :
  Forall nonneg_entry r -> xsum r = Finite 1 ->
  exists t, t < length r /\ (0 < xval (xitem r t))%R.
Proof.
  intros Hnn Hsum. rewrite (nonneg_entries_Finite r Hnn) in Hsum.
  rewrite xsum_Finite in Hsum. injection Hsum as Hsum.
  rewrite rsum_tabulate_fmap in Hsum.
  apply rsum_tabulate_pos_exists; [|lra].
  intros t Ht. by apply nonneg_entry_Finite, xitem_Forall.
Qed.

Lemma get_marginal_topic_distrib_Finite (theta : matrix xreal)
    (doc_lengths : list xreal) :
  matrix_wf theta ->
  length doc_lengths = shape0 theta ->
  row_stochastic theta ->
  valid_doc_lengths doc_lengths ->
  exists p : nat -> R,
    get_marginal_topic_distrib theta doc_lengths
      = tabulate (shape1 theta) (fun t => Finite (p t)) /\
    (forall t, t < shape1 theta -> (0 <= p t)%R) /\
    (exists t, t < shape1 theta /\ (0 < p t)%R).
Proof.
  intros Hwf Hlen [Hnn Hrows] [Hdl Hsome].
  pose proof (proj1 (matrix_wf_Forall nonneg_entry NaN theta Hwf) Hnn)
    as Hitem.
  set (a := fun d t => xval (item NaN theta d t)).
  set (b := fun d => xval (xitem doc_lengths d)).
  assert (forall d t, d < shape0 theta -> t < shape1 theta ->
            item NaN theta d t = Finite (a d t) /\ (0 <= a d t)%R) as Ha.
  { intros d t Hd Ht. by apply nonneg_entry_Finite, Hitem. }
  assert (forall d, d < shape0 theta ->
            xitem doc_lengths d = Finite (b d) /\ (0 <= b d)%R) as Hb.
  { intros d Hd. apply nonneg_entry_Finite, xitem_Forall; [done|lia]. }
  set (u := fun t =>
         rsum (tabulate (shape0 theta) (fun d => (a d t * b d)%R))).
  assert (forall t, t < shape1 theta -> (0 <= u t)%R) as Hu.
  { intros t Ht. apply rsum_tabulate_nonneg. intros d Hd.
    apply Rmult_le_pos; [by apply Ha|by apply Hb]. }
  (* a document with tokens, and a topic it weighs *)
  assert (exists d, d < shape0 theta /\ (0 < b d)%R) as (d0 & Hd0 & Hbd0).
  { apply Exists_exists in Hsome as (x & Hx & Hpos).
    apply list_elem_of_lookup in Hx as [d Hd]. exists d.
    split; [rewrite <- Hlen; by eapply lookup_lt_Some|].
    unfold b, xitem. rewrite Hd. simpl.
    by apply positive_entry_Finite. }
  assert (exists t, t < shape1 theta /\ (0 < a d0 t)%R) as (t0 & Ht0 & Hat0).
  { destruct Hwf as [Hr Hc].
    destruct (lookup_lt_is_Some_2 (rows theta) d0) as [r Hrow]; [lia|].
    pose proof (Forall_lookup_1 _ _ _ _ Hc Hrow) as Hlr. simpl in Hlr.
    destruct (stochastic_row_positive r) as (t & Ht & Hpos).
    - by eapply (Forall_lookup_1 _ _ _ _ Hnn).
    - by eapply (Forall_lookup_1 _ _ _ _ Hrows).
    - exists t. split; [lia|]. unfold a, item. by rewrite Hrow. }
  assert (0 < u t0)%R as Hut0.
  { unfold u. apply (rsum_tabulate_pos _ _ d0); [|done|].
    - intros d Hd. apply Rmult_le_pos; [by apply Ha|by apply Hb].
    - by apply Rmult_lt_0_compat. }
  assert (0 < rsum (tabulate (shape1 theta) u))%R as Htot.
  { by apply (rsum_tabulate_pos _ _ t0). }
  exists (fun t => (u t / rsum (tabulate (shape1 theta) u))%R).
  split_and!.
  - unfold get_marginal_topic_distrib.
    rewrite (weighted_column_sums_Finite theta doc_lengths a b);
      [|intros; by apply Ha|intros; by apply Hb].
    fold u.
    rewrite (xsum_tabulate_Finite _ _ u) by done.
    rewrite fmap_tabulate. apply tabulate_ext. intros t Ht.
    by apply xdiv_Finite_pos.
  - intros t Ht. unfold Rdiv. apply Rmult_le_pos; [by apply Hu|].
    by apply Rlt_le, Rinv_0_lt_compat.
  - exists t0. split; [done|]. unfold Rdiv.
    apply Rmult_lt_0_compat; [done|]. by apply Rinv_0_lt_compat.
Qed.

Lemma get_marginal_word_distrib_positive (phi : matrix xreal)
    (p : nat -> R) :
  matrix_wf phi ->
  Forall (Forall positive_entry) (rows phi) ->
  (forall t, t < shape0 phi -> (0 <= p t)%R) ->
  (exists t, t < shape0 phi /\ (0 < p t)%R) ->
  exists w : nat -> R,
    get_marginal_word_distrib phi
      (tabulate (shape0 phi) (fun t => Finite (p t)))
    = tabulate (shape1 phi) (fun j => Finite (w j)) /\
    forall j, j < shape1 phi -> (0 < w j)%R.
Proof.
  intros Hwf Hpos Hp (t0 & Ht0 & Hpt0).
  pose proof (proj1 (matrix_wf_Forall positive_entry NaN phi Hwf) Hpos)
    as Hitem.
  set (a := fun t j => xval (item NaN phi t j)).
  assert (forall t j, t < shape0 phi -> j < shape1 phi ->
            item NaN phi t j = Finite (a t j) /\ (0 < a t j)%R) as Ha.
  { intros t j Ht Hj. by apply positive_entry_Finite, Hitem. }
  exists (fun j => rsum (tabulate (shape0 phi) (fun t => (a t j * p t)%R))).
  split.
  - unfold get_marginal_word_distrib.
    apply (weighted_column_sums_Finite phi _ a p).
    + intros; by apply Ha.
    + intros t Ht. by rewrite xitem_tabulate.
  - intros j Hj. apply (rsum_tabulate_pos _ _ t0); [|done|].
    + intros t Ht. apply Rmult_le_pos; [|by apply Hp].
      by apply Rlt_le, Ha.
    + apply Rmult_lt_0_compat; [by apply Ha|done].
Qed.

(** * Binary64 arithmetic *)

Lemma Prim2SF_one :
  Prim2SF 1%float = S754_finite false 4503599627370496 (-52).
Proof. reflexivity. Qed.

Lemma digits2_pos_shift52 (m : positive) :
  Z.pos (digits2_pos (4503599627370496 * m))
  = (Z.pos (digits2_pos m) + 52)%Z.
Proof.
  change (4503599627370496 * m)%positive with (Pos.iter xO m 52%positive).
  cbv [Pos.iter]. cbn [digits2_pos]. lia.
Qed.

Lemma shr_shift52 (m : positive) :
  SpecFloat.iter_pos shr_1 52
    (Build_shr_record (Z.pos (4503599627370496 * m)) false false)
  = Build_shr_record (Z.pos m) false false.
Proof. reflexivity. Qed.

(** Rounding the mantissa of a binary64 number shifted by 52 bits gives
    the number back. *)
Lemma binary_round_aux_one (s : bool) (m : positive) (e : Z) :
  bounded prec emax m e = true ->
  binary_round_aux prec emax s (Z.pos (4503599627370496 * m)) (-52 + e)
    loc_Exact
  = S754_finite s m e.
Proof.
  unfold bounded, canonical_mantissa. intros Hb.
  apply andb_true_iff in Hb as [Hc He]. apply Z.eqb_eq in Hc.
  unfold binary_round_aux, shr_fexp. cbn [Zdigits2 shr_record_of_loc].
  rewrite digits2_pos_shift52.
  replace (Z.pos (digits2_pos m) + 52 + (-52 + e))%Z
    with (Z.pos (digits2_pos m) + e)%Z by lia.
  rewrite Hc. replace (e - (-52 + e))%Z with 52%Z by lia.
  cbn [shr]. rewrite shr_shift52.
  cbn [shr_m loc_of_shr_record round_nearest_even Zdigits2
       shr_record_of_loc].
  replace (-52 + e + 52)%Z with e by lia.
  rewrite Hc, Z.sub_diag. cbn [shr shr_m]. by rewrite He.
Qed.

(** [1 * x] is [x], bit for bit. *)
Lemma mul_one_l (x : float) : (1 * x)%float = x.
Proof.
  apply Prim2SF_inj. rewrite mul_spec, Prim2SF_one.
  pose proof (Prim2SF_valid x) as Hv.
  destruct (Prim2SF x) as [s|s| |s m e]; try reflexivity.
  unfold SF64mul, SFmul. simpl xorb. by apply binary_round_aux_one.
Qed.

(** Every binary64 number is a NaN, an infinity, a zero or a finite
    non-zero number. *)
Lemma float_cases (x : float) :
  x = nan \/ x = infinity \/ x = neg_infinity \/
  x = 0%float \/ x = (-0)%float \/
  exists s m e, Prim2SF x = S754_finite s m e.
Proof.
  destruct (Prim2SF x) as [s|s| |s m e] eqn:Hx.
  - rewrite <- (SF2Prim_Prim2SF x), Hx. destruct s; tauto.
  - rewrite <- (SF2Prim_Prim2SF x), Hx. destruct s; tauto.
  - rewrite <- (SF2Prim_Prim2SF x), Hx. tauto.
  - do 5 right. by exists s, m, e.
Qed.

(** [0 * x] is a zero when [x] is finite, and NaN otherwise. *)
Lemma mul_zero_l_cases (x : float) :
  (Binary64.is_finite x = true /\
   ((0 * x)%float = 0%float \/ (0 * x)%float = (-0)%float)) \/
  (Binary64.is_finite x = false /\ (0 * x)%float = nan).
Proof.
  unfold Binary64.is_finite.
  rewrite <- (SF2Prim_Prim2SF (0 * x)%float), mul_spec.
  destruct (Prim2SF x) as [s|s| |s m e].
  - left. split; [done|]. destruct s; [by right|by left].
  - by right.
  - by right.
  - left. split; [done|]. destruct s; [by right|by left].
Qed.

Lemma add_nan_r (x : float) : (x + nan)%float = nan.
Proof.
  rewrite <- (SF2Prim_Prim2SF (x + nan)%float), add_spec.
  by destruct (Prim2SF x).
Qed.

Lemma SFeqb_refl (x : spec_float) : x <> S754_nan -> SFeqb x x = true.
Proof.
  intros Hx. unfold SFeqb, SFcompare.
  destruct x as [s|s| |s m e]; [done|by destruct s|done|].
  destruct s; by rewrite Z.compare_refl, Pos.compare_cont_refl.
Qed.

(** Adding a zero does not change the value. *)
Lemma add_zero_r_same_value (x z : float) :
  z = 0%float \/ z = (-0)%float ->
  Binary64.same_value (x + z) x = true.
Proof.
  intros Hz.
  destruct (float_cases x)
    as [-> | [-> | [-> | [-> | [-> | (s & m & e & Hx)]]]]];
    try (by destruct Hz as [-> | ->]).
  assert ((x + z)%float = x) as ->.
  { apply Prim2SF_inj. rewrite add_spec, Hx.
    by destruct Hz as [-> | ->]. }
  unfold Binary64.same_value. by rewrite FloatAxioms.eqb_spec, Hx, SFeqb_refl.
Qed.

(** * Relevance *)

Lemma relevance_entry (log_finite : float -> float)
    (phi theta : matrix float) (doc_lengths : list float) (lambda_ : float)
    (t w : nat) :
  t < shape0 phi -> w < shape1 phi ->
  item nan
    (Binary64.get_topic_word_relevance log_finite phi theta doc_lengths
       lambda_) t w
  = (lambda_ * Binary64.np_log log_finite (item nan phi t w)
     + (1 - lambda_)
       * item nan (Binary64.loglift log_finite phi theta doc_lengths) t w
    )%float.
Proof.
  intros Ht Hw.
  unfold Binary64.get_topic_word_relevance, Binary64.logtw, ewise2, ewise1.
  cbn [shape0 shape1]. by rewrite !item_build.
Qed.

(** C5 (amended): with [lambda_ = 1], the entry of the relevance matrix
    for topic [t] and word [w] has the value of [log(phi[t, w])] when the
    lift term [log(phi[t, w] / p_w[w])] is finite, and is NaN when the
    lift term is infinite or NaN: its weight 0 cancels finite numbers
    only. *)
Theorem get_topic_word_relevance_lambda_one_finite_lift
    (log_finite : float -> float) (phi theta : matrix float)
    (doc_lengths : list float) :
  matrix_wf phi ->
  matrix_wf theta ->
  shape1 theta = shape0 phi ->
  length doc_lengths = shape0 theta ->
  forall t w, t < shape0 phi -> w < shape1 phi ->
    Binary64.same_value
      (item nan
         (Binary64.get_topic_word_relevance log_finite phi theta
            doc_lengths 1) t w)
      (if Binary64.is_finite
            (item nan (Binary64.loglift log_finite phi theta doc_lengths)
               t w)
       then Binary64.np_log log_finite (item nan phi t w)
       else nan)
    = true.
Proof.
  intros _ _ _ _ t w Ht Hw. rewrite relevance_entry by done.
  change (1 - 1)%float with 0%float. rewrite mul_one_l.
  destruct (mul_zero_l_cases
              (item nan (Binary64.loglift log_finite phi theta doc_lengths)
                 t w)) as [[-> Hz] | [-> ->]].
  - by apply add_zero_r_same_value.
  - by rewrite add_nan_r.
Qed.

Lemma get_topic_word_relevance_lambda_one_finite_lift_witness :
  Binary64.same_value
    (item nan
       (Binary64.get_topic_word_relevance example_log two_topic_phi64
          first_topic_theta64 [1%float] 1) 1 0)
    (if Binary64.is_finite
          (item nan
             (Binary64.loglift example_log two_topic_phi64
                first_topic_theta64 [1%float]) 1 0)
     then Binary64.np_log example_log (item nan two_topic_phi64 1 0)
     else nan)
  = true.
Proof.
  apply (get_topic_word_relevance_lambda_one_finite_lift example_log
           two_topic_phi64 first_topic_theta64 [1%float]).
  - split; [reflexivity|]. repeat constructor.
  - split; [reflexivity|]. repeat constructor.
  - reflexivity.
  - reflexivity.
  - simpl. lia.
  - simpl. lia.
Defined.

(** C5 as stated fails when the lift overflows: the word of probability
    [2^-1030] in the first topic has [p_w = 2^-1030], so in the second
    topic [phi / p_w = 0.5 / 2^-1030] is [inf], and [0 * log(inf)] is NaN
    where [log(phi)] is the number [log(0.5)], for every logarithm. *)
Lemma get_topic_word_relevance_lambda_one_counterexample :
  Forall (Forall (fun x => (0 <? x)%float = true)) (rows rare_word_phi64) /\
  Binary64.sum_axis1 rare_word_phi64 = [1%float; 1%float] /\
  Binary64.sum_axis1 first_topic_theta64 = [1%float] /\
  ~ (exists log_finite : float -> float,
       PrimFloat.is_nan (log_finite 0.5%float) = false /\
       Binary64.get_topic_word_relevance log_finite rare_word_phi64
         first_topic_theta64 [1%float] 1
       = Binary64.logtw log_finite rare_word_phi64).
Proof.
  split_and!.
  - repeat constructor.
  - reflexivity.
  - reflexivity.
  - intros (log_finite & Hlog & Heq).
    apply (f_equal (fun m => item nan m 1 0)) in Heq.
    vm_compute in Heq. rewrite add_nan_r in Heq.
    rewrite <- Heq in Hlog. done.
Qed.

(** * Distinctiveness *)











(** * Further properties of the ranking primitive *)

Lemma words_by_score_shape_mismatch {Score A : Type}
    (argsort : list Score -> list nat) (words : list A)
    (score : list Score) (least_to_most : bool) (n : option Z) :
  length words <> length score ->
  _words_by_score argsort words score least_to_most n = Raise ValueError.
Proof.
  intros Hlen. unfold _words_by_score.
  apply Nat.eqb_neq in Hlen. by rewrite Hlen.
Qed.

Lemma words_by_score_invalid_n {Score A : Type}
    (argsort : list Score -> list nat) (words : list A)
    (score : list Score) (least_to_most : bool) (n : option Z) :
  ~ valid_top_n n (length words) ->
  _words_by_score argsort words score least_to_most n = Raise ValueError.
Proof.
  intros Hn. unfold _words_by_score.
  destruct (length words =? length score); simpl; [|done].
  destruct n as [k|]; simpl in *; [|tauto].
  destruct (k <=? 0)%Z eqn:H0; simpl; [done|].
  destruct (Z.of_nat (length words) <? k)%Z eqn:H1; simpl; [done|]. lia.
Qed.

Lemma words_by_score_valid_Return {Score A : Type}
    (argsort : list Score -> list nat) (words : list A)
    (score : list Score) (least_to_most : bool) (n : option Z) :
  argsort score ≡ₚ seq 0 (length score) ->
  length words = length score ->
  valid_top_n n (length words) ->
  exists out,
    _words_by_score argsort words score least_to_most n = Return out.
Proof.
  intros Hperm Hlen Hn. unfold _words_by_score.
  rewrite Hlen, Nat.eqb_refl. simpl.
  destruct (take_indices_Permutation words
              (order_indices argsort score least_to_most))
    as (out & Hout & _).
  { rewrite Hlen. by apply order_indices_Permutation. }
  rewrite Hout. destruct n as [k|]; simpl in *.
  - assert ((k <=? 0)%Z = false) as -> by lia.
    assert ((Z.of_nat (length score) <? k)%Z = false) as -> by lia.
    simpl. by eexists.
  - by eexists.
Qed.

(** X1: given a conforming [argsort], [_words_by_score] raises
    [ValueError] when the shapes of [words] and [score] differ or when [n]
    is given outside [1, len(words)], and returns in every other case; it
    raises nothing else. *)
Theorem words_by_score_raises_only_ValueError {Score A : Type}
    (leb : Score -> Score -> bool) (argsort : list Score -> list nat)
    (words : list A) (score : list Score) (least_to_most : bool)
    (n : option Z) :
  ArgsortSpec leb argsort ->
  (length words <> length score \/ ~ valid_top_n n (length words) ->
   _words_by_score argsort words score least_to_most n = Raise ValueError) /\
  (length words = length score -> valid_top_n n (length words) ->
   exists out,
     _words_by_score argsort words score least_to_most n = Return out).
Proof.
  intros [Hperm _]. split.
  - intros [Hlen|Hn].
    + by apply words_by_score_shape_mismatch.
    + by apply words_by_score_invalid_n.
  - intros Hlen Hn. by apply words_by_score_valid_Return.
Qed.

Lemma words_by_score_raises_only_ValueError_witness :
  (length ["a"; "b"] <> length [2%Q; 1%Q] \/
   ~ valid_top_n (Some 3%Z) (length ["a"; "b"]) ->
   _words_by_score (stable_argsort Qle_bool) ["a"; "b"] [2%Q; 1%Q] true
     (Some 3%Z) = Raise ValueError) /\
  (length ["a"; "b"] = length [2%Q; 1%Q] ->
   valid_top_n (Some 3%Z) (length ["a"; "b"]) ->
   exists out,
     _words_by_score (stable_argsort Qle_bool) ["a"; "b"] [2%Q; 1%Q] true
       (Some 3%Z) = Return out).
Proof.
  apply (words_by_score_raises_only_ValueError Qle_bool
           (stable_argsort Qle_bool)).
  apply StableArgsortSpec_ArgsortSpec, stable_argsort_spec.
  - exact Qle_bool_total.
  - exact Qle_bool_trans.
Defined.

(** X2: with a valid [n], the result is the first [n] items of the full
    ranking (the one returned without [n]), and has exactly [n] items. *)
Theorem words_by_score_top_n_is_prefix {Score A : Type}
    (leb : Score -> Score -> bool) (argsort : list Score -> list nat)
    (words : list A) (score : list Score) (least_to_most : bool) (k : Z) :
  ArgsortSpec leb argsort ->
  length words = length score ->
  (1 <= k <= Z.of_nat (length words))%Z ->
  exists full,
    _words_by_score argsort words score least_to_most None = Return full /\
    _words_by_score argsort words score least_to_most (Some k)
      = Return (take (Z.to_nat k) full) /\
    length (take (Z.to_nat k) full) = Z.to_nat k.
Proof.
  intros [Hperm _] Hlen Hk.
  destruct (words_by_score_Permutation argsort words score least_to_most
              (Hperm score) Hlen) as (full & Hfull & Hp).
  exists full. split; [done|].
  rewrite words_by_score_None in Hfull by done.
  unfold _words_by_score. rewrite Hlen, Nat.eqb_refl. simpl.
  assert ((k <=? 0)%Z = false) as -> by lia.
  assert ((Z.of_nat (length score) <? k)%Z = false) as -> by lia.
  simpl. rewrite Hfull. simpl. split; [done|].
  rewrite length_take, Hp. lia.
Qed.

Lemma words_by_score_top_n_is_prefix_witness :
  exists full,
    _words_by_score (stable_argsort Qle_bool) ["a"; "b"; "c"]
      [3%Q; 1%Q; 2%Q] true None = Return full /\
    _words_by_score (stable_argsort Qle_bool) ["a"; "b"; "c"]
      [3%Q; 1%Q; 2%Q] true (Some 2%Z)
      = Return (take (Z.to_nat 2) full) /\
    length (take (Z.to_nat 2) full) = Z.to_nat 2.
Proof.
  apply (words_by_score_top_n_is_prefix Qle_bool (stable_argsort Qle_bool)).
  - apply StableArgsortSpec_ArgsortSpec, stable_argsort_spec.
    + exact Qle_bool_total.
    + exact Qle_bool_trans.
  - reflexivity.
  - simpl. lia.
Defined.

(** X3: the full descending ranking is the exact reverse of the full
    ascending ranking, ties included. *)
Theorem words_by_score_descending_is_reverse {Score A : Type}
    (leb : Score -> Score -> bool) (argsort : list Score -> list nat)
    (words : list A) (score : list Score) :
  ArgsortSpec leb argsort ->
  length words = length score ->
  exists ascending_words,
    _words_by_score argsort words score true None = Return ascending_words /\
    _words_by_score argsort words score false None
      = Return (reverse ascending_words).
Proof.
  intros [Hperm _] Hlen.
  destruct (words_by_score_Permutation argsort words score true
              (Hperm score) Hlen) as (asc & Hasc & _).
  exists asc. split; [done|].
  rewrite words_by_score_None in Hasc |- * by done.
  apply take_indices_Return in Hasc. apply take_indices_Return.
  unfold order_indices in *. simpl in *. by apply Forall2_reverse.
Qed.

Lemma words_by_score_descending_is_reverse_witness :
  exists ascending_words,
    _words_by_score (stable_argsort Qle_bool) ["a"; "b"; "c"]
      [3%Q; 1%Q; 2%Q] true None = Return ascending_words /\
    _words_by_score (stable_argsort Qle_bool) ["a"; "b"; "c"]
      [3%Q; 1%Q; 2%Q] false None = Return (reverse ascending_words).
Proof.
  apply (words_by_score_descending_is_reverse Qle_bool
           (stable_argsort Qle_bool)).
  - apply StableArgsortSpec_ArgsortSpec, stable_argsort_spec.
    + exact Qle_bool_total.
    + exact Qle_bool_trans.
  - reflexivity.
Defined.

(** X4: the ranking lists the scores in order: never decreasing when
    [least_to_most] is true, never increasing when it is false. *)
Theorem words_by_score_orders_scores {Score : Type}
    (leb : Score -> Score -> bool) (argsort : list Score -> list nat)
    (score : list Score) :
  ArgsortSpec leb argsort ->
  scores_ascend leb score (order_indices argsort score true) /\
  scores_descend leb score (order_indices argsort score false).
Proof.
  intros [_ Hsorted]. specialize (Hsorted score).
  unfold order_indices. simpl. split.
  - intros p q i j a b Hpq Hp Hq Ha Hb.
    pose proof (StronglySorted_lookup _ _ _ _ _ _ Hsorted Hpq Hp Hq) as H.
    unfold ascending in H. by rewrite Ha, Hb in H.
  - intros p q i j a b Hpq Hp Hq Ha Hb.
    assert (q < length (argsort score)) as Hqlen.
    { apply lookup_lt_Some in Hq. by rewrite length_reverse in Hq. }
    rewrite reverse_lookup in Hp by lia.
    rewrite reverse_lookup in Hq by lia.
    assert (length (argsort score) - S q < length (argsort score) - S p)
      as Hlt by lia.
    pose proof (StronglySorted_lookup _ _ _ _ _ _ Hsorted Hlt Hq Hp) as H.
    unfold ascending in H. by rewrite Ha, Hb in H.
Qed.

Lemma words_by_score_orders_scores_witness :
  scores_ascend Qle_bool [3%Q; 1%Q; 2%Q]
    (order_indices (stable_argsort Qle_bool) [3%Q; 1%Q; 2%Q] true) /\
  scores_descend Qle_bool [3%Q; 1%Q; 2%Q]
    (order_indices (stable_argsort Qle_bool) [3%Q; 1%Q; 2%Q] false).
Proof.
  apply (words_by_score_orders_scores Qle_bool (stable_argsort Qle_bool)).
  apply StableArgsortSpec_ArgsortSpec, stable_argsort_spec.
  - exact Qle_bool_total.
  - exact Qle_bool_trans.
Defined.

(** * Further properties of the relevance rankings *)

Lemma length_row {A : Type} (m : matrix A) (i : nat) :
  matrix_wf m -> i < shape0 m -> length (row m i) = shape1 m.
Proof.
  intros [Hr Hc] Hi. unfold row.
  destruct (lookup_lt_is_Some_2 (rows m) i) as [r Hrow]; [lia|].
  rewrite Hrow. simpl. by apply (Forall_lookup_1 _ _ _ _ Hc Hrow).
Qed.

Lemma check_relevant_words_ok {Score : Type} (vocab : list string)
    (m : matrix Score) (topic : Z) :
  length vocab = shape1 m ->
  (0 <= topic < Z.of_nat (shape0 m))%Z ->
  _check_relevant_words_for_topic_args vocab (Array2 m) topic = Return tt.
Proof.
  intros Hlen Ht. unfold _check_relevant_words_for_topic_args.
  rewrite Hlen, Nat.eqb_refl. simpl.
  assert ((0 <=? topic)%Z = true) as -> by lia.
  by assert ((topic <? Z.of_nat (shape0 m))%Z = true) as -> by lia.
Qed.

(** X5: for a well-formed relevance matrix, a vocabulary as long as its
    rows and a valid topic, [get_most_relevant_words_for_topic] returns a
    permutation of the vocabulary, and
    [get_least_relevant_words_for_topic] returns the same words in reverse
    order. *)
Theorem relevant_words_rank_whole_vocabulary {Score : Type}
    (leb : Score -> Score -> bool) (argsort : list Score -> list nat)
    (vocab : list string) (m : matrix Score) (topic : Z) :
  ArgsortSpec leb argsort ->
  matrix_wf m ->
  length vocab = shape1 m ->
  (0 <= topic < Z.of_nat (shape0 m))%Z ->
  exists most,
    get_most_relevant_words_for_topic argsort vocab (Array2 m) topic None
      = Return most /\
    most ≡ₚ vocab /\
    get_least_relevant_words_for_topic argsort vocab (Array2 m) topic None
      = Return (reverse most).
Proof.
  intros Hspec Hwf Hlen Ht.
  assert (length vocab = length (row m (Z.to_nat topic))) as Hrow.
  { rewrite length_row; [done|done|lia]. }
  destruct Hspec as [Hperm _].
  destruct (words_by_score_Permutation argsort vocab
              (row m (Z.to_nat topic)) true (Hperm _) Hrow)
    as (least & Hleast & Hp).
  exists (reverse least).
  unfold get_most_relevant_words_for_topic,
    get_least_relevant_words_for_topic.
  rewrite check_relevant_words_ok by done. simpl.
  rewrite reverse_involutive. split_and!; [|by rewrite reverse_Permutation|done].
  rewrite words_by_score_None in Hleast |- * by done.
  apply take_indices_Return in Hleast. apply take_indices_Return.
  unfold order_indices in *. simpl in *. by apply Forall2_reverse.
Qed.

Lemma relevant_words_rank_whole_vocabulary_witness :
  exists most,
    get_most_relevant_words_for_topic (stable_argsort Qle_bool)
      ["a"; "b"; "c"] (Array2 scenario_dtm) 1 None = Return most /\
    most ≡ₚ ["a"; "b"; "c"] /\
    get_least_relevant_words_for_topic (stable_argsort Qle_bool)
      ["a"; "b"; "c"] (Array2 scenario_dtm) 1 None = Return (reverse most).
Proof.
  apply (relevant_words_rank_whole_vocabulary Qle_bool
           (stable_argsort Qle_bool)).
  - apply StableArgsortSpec_ArgsortSpec, stable_argsort_spec.
    + exact Qle_bool_total.
    + exact Qle_bool_trans.
  - split; [reflexivity|]. repeat constructor.
  - reflexivity.
  - simpl. lia.
Defined.

(** X6: on a well-formed 2D relevance matrix the getter raises
    [ValueError] when the vocabulary length differs from the column count,
    when the topic is out of range or when [n] is outside
    [1, len(vocab)]; in every other case it returns. *)
Theorem relevant_words_raise_only_ValueError {Score : Type}
    (leb : Score -> Score -> bool) (argsort : list Score -> list nat)
    (vocab : list string) (m : matrix Score) (topic : Z) (n : option Z) :
  ArgsortSpec leb argsort ->
  matrix_wf m ->
  (length vocab <> shape1 m \/
   ~ (0 <= topic < Z.of_nat (shape0 m))%Z \/
   ~ valid_top_n n (length vocab) ->
   get_most_relevant_words_for_topic argsort vocab (Array2 m) topic n
     = Raise ValueError) /\
  (length vocab = shape1 m ->
   (0 <= topic < Z.of_nat (shape0 m))%Z ->
   valid_top_n n (length vocab) ->
   exists out,
     get_most_relevant_words_for_topic argsort vocab (Array2 m) topic n
       = Return out).
Proof.
  intros Hspec Hwf. unfold get_most_relevant_words_for_topic.
  destruct (decide (length vocab = shape1 m)) as [Hlen|Hlen].
  - destruct (decide (0 <= topic < Z.of_nat (shape0 m))%Z) as [Ht|Ht].
    + rewrite check_relevant_words_ok by done. simpl.
      assert (length vocab = length (row m (Z.to_nat topic))) as Hrow.
      { rewrite length_row; [done|done|lia]. }
      destruct Hspec as [Hperm _]. split.
      * intros [?|[?|Hn]]; [done|done|].
        by apply words_by_score_invalid_n.
      * intros _ _ Hn. by apply words_by_score_valid_Return.
    + rewrite check_relevant_words_topic_out_of_range by done.
      split; [done|]. by intros.
  - split; [|by intros]. intros _.
    unfold _check_relevant_words_for_topic_args.
    apply Nat.eqb_neq in Hlen. by rewrite Hlen.
Qed.

Lemma relevant_words_raise_only_ValueError_witness :
  (length ["a"; "b"] <> shape1 scenario_dtm \/
   ~ (0 <= 1 < Z.of_nat (shape0 scenario_dtm))%Z \/
   ~ valid_top_n None (length ["a"; "b"]) ->
   get_most_relevant_words_for_topic (stable_argsort Qle_bool) ["a"; "b"]
     (Array2 scenario_dtm) 1 None = Raise ValueError) /\
  (length ["a"; "b"] = shape1 scenario_dtm ->
   (0 <= 1 < Z.of_nat (shape0 scenario_dtm))%Z ->
   valid_top_n None (length ["a"; "b"]) ->
   exists out,
     get_most_relevant_words_for_topic (stable_argsort Qle_bool)
       ["a"; "b"] (Array2 scenario_dtm) 1 None = Return out).
Proof.
  apply (relevant_words_raise_only_ValueError Qle_bool
           (stable_argsort Qle_bool)).
  - apply StableArgsortSpec_ArgsortSpec, stable_argsort_spec.
    + exact Qle_bool_total.
    + exact Qle_bool_trans.
  - split; [reflexivity|]. repeat constructor.
Defined.

(** * Further properties of the matrix statistics *)


Lemma count_true_cons (b : bool) (v : list bool) :
  count_true (b :: v) = (if b then 1 else 0) + count_true v.
Proof.
  unfold count_true. rewrite filter_cons.
  destruct b; case_decide; simpl; done.
Qed.

Lemma count_true_zip_andb (v1 v2 : list bool) :
  count_true (zip_with andb v1 v2) <= count_true v1 /\
  count_true (zip_with andb v1 v2) <= count_true v2.
Proof.
  revert v2. induction v1 as [|b1 v1 IH]; intros [|b2 v2]; simpl;
    try (split; unfold count_true; simpl; lia).
  rewrite !count_true_cons. destruct (IH v2) as [H1 H2].
  destruct b1, b2; simpl; lia.
Qed.

Lemma count_true_tabulate_all (n : nat) (f : nat -> bool) :
  (forall i, i < n -> f i = true) -> count_true (tabulate n f) = n.
Proof.
  induction n as [|n IH]; intros Hf; [done|].
  rewrite tabulate_S. unfold count_true in *.
  rewrite filter_app, length_app, IH by auto with lia.
  rewrite filter_cons, Hf by lia. simpl. lia.
Qed.

Lemma length_column (m : matrix bool) (j : nat) :
  length (column m j) = shape0 m.
Proof. unfold column. apply length_tabulate. Qed.

(** X8: every document frequency is a count between 0 and the number of
    documents; as a proportion it lies in [0, 1] as soon as the matrix has
    a document.  There is one entry per term. *)
Theorem get_doc_frequencies_bounds (m : matrix Q) (min_val : Q) :
  (exists doc_freq,
     get_doc_frequencies (Array2 m) min_val false
       = Return (NpInt <$> doc_freq) /\
     length doc_freq = shape1 m /\
     Forall (fun c => c <= shape0 m) doc_freq) /\
  (1 <= shape0 m ->
   exists props,
     get_doc_frequencies (Array2 m) min_val true = Return props /\
     length props = shape1 m /\
     Forall in_unit_interval props).
Proof.
  unfold get_doc_frequencies. split.
  - eexists. split_and!; [done|apply length_tabulate|].
    apply Forall_tabulate. intros j Hj.
    etrans; [apply count_true_le|]. by rewrite length_column.
  - intros Hd. eexists. split_and!; [done| |].
    + by rewrite length_fmap, length_tabulate.
    + apply Forall_fmap, Forall_tabulate. intros j Hj. simpl.
      apply true_divide_unit_interval; [done|].
      etrans; [apply count_true_le|]. by rewrite length_column.
Qed.

Lemma get_doc_frequencies_bounds_witness :
  exists props,
    get_doc_frequencies (Array2 scenario_dtm) 1 true = Return props /\
    length props = shape1 scenario_dtm /\
    Forall in_unit_interval props.
Proof.
  apply (get_doc_frequencies_bounds scenario_dtm 1). simpl. lia.
Defined.

(** X9: the number of documents holding two words together is at most the
    document frequency of either word (same [min_val], absolute
    counts). *)
Theorem codoc_frequency_at_most_doc_frequency (m : matrix Q) (min_val : Q)
    (w1 w2 : nat) :
  w1 < w2 -> w2 < shape1 m ->
  exists codoc_freq doc_freq c c1 c2,
    get_codoc_frequencies (Array2 m) min_val false = Return codoc_freq /\
    get_doc_frequencies (Array2 m) min_val false = Return doc_freq /\
    codoc_freq !! (w1, w2) = Some (NpInt c) /\
    doc_freq !! w1 = Some (NpInt c1) /\
    doc_freq !! w2 = Some (NpInt c2) /\
    c <= c1 /\ c <= c2.
Proof.
  intros H12 H2. unfold get_codoc_frequencies, get_doc_frequencies.
  assert ((shape1 m <? 2) = false) as -> by (apply Nat.ltb_ge; lia).
  simpl. do 5 eexists. split_and!; [done|done| | | |..].
  - rewrite foldl_insert_lookup. rewrite decide_True; [done|].
    apply elem_of_combinations2_seq. lia.
  - rewrite list_lookup_fmap, lookup_tabulate by lia. done.
  - rewrite list_lookup_fmap, lookup_tabulate by lia. done.
  - apply count_true_zip_andb.
  - apply count_true_zip_andb.
Qed.

Lemma codoc_frequency_at_most_doc_frequency_witness :
  exists codoc_freq doc_freq c c1 c2,
    get_codoc_frequencies (Array2 scenario_dtm) 1 false
      = Return codoc_freq /\
    get_doc_frequencies (Array2 scenario_dtm) 1 false = Return doc_freq /\
    codoc_freq !! (0, 2) = Some (NpInt c) /\
    doc_freq !! 0 = Some (NpInt c1) /\
    doc_freq !! 2 = Some (NpInt c2) /\
    c <= c1 /\ c <= c2.
Proof.
  apply (codoc_frequency_at_most_doc_frequency scenario_dtm 1 0 2);
    simpl; lia.
Defined.

Lemma tabulate_const {A : Type} (n : nat) (c : A) :
  tabulate n (fun _ => c) = replicate n c.
Proof.
  induction n as [|n IH]; [done|].
  by rewrite tabulate_S, IH, replicate_S_end.
Qed.

(** X10: [min_val] is not validated; with a threshold of zero or below,
    every document of a non-negative matrix counts for every word, so every
    document frequency is the number of documents. *)
Theorem get_doc_frequencies_nonpositive_min_val (m : matrix Q)
    (min_val : Q) :
  Forall (Forall (fun x => 0 <= x)%Q) (rows m) ->
  (min_val <= 0)%Q ->
  get_doc_frequencies (Array2 m) min_val false
    = Return (replicate (shape1 m) (NpInt (shape0 m))).
Proof.
  intros Hnn Hmin. unfold get_doc_frequencies. f_equal.
  rewrite fmap_tabulate.
  rewrite (tabulate_ext _ _ (fun _ => NpInt (shape0 m))).
  - apply tabulate_const.
  - intros j Hj. f_equal. unfold column. simpl.
    apply count_true_tabulate_all. intros i Hi.
    rewrite item_build by done. apply Qle_bool_iff.
    eapply Qle_trans; [done|].
    by apply (item_Forall (fun x => 0 <= x)%Q).
Qed.

Lemma get_doc_frequencies_nonpositive_min_val_witness :
  get_doc_frequencies (Array2 scenario_dtm) 0 false
    = Return (replicate (shape1 scenario_dtm)
                (NpInt (shape0 scenario_dtm))).
Proof.
  apply (get_doc_frequencies_nonpositive_min_val scenario_dtm 0).
  - repeat constructor; by vm_compute.
  - by vm_compute.
Defined.

(** X11: on a matrix of non-negative counts whose token count is positive
    and fits in [int64], every term proportion lies between 0 and 1. *)
Theorem get_term_proportions_in_unit_interval_without_overflow
    (m : matrix Z) :
  count_matrix m ->
  (0 < token_count m <= Int64.max_int)%Z ->
  exists props,
    Int64.get_term_proportions (Array2 m) = Return props /\
    Forall (fun x => 0 <= x /\ x <= 1)%Q props.
Proof.
  intros Hnn [Hpos Hmax]. rewrite get_term_proportions_unfold.
  destruct (term_frequencies_exact m Hnn Hmax) as (-> & -> & _ & Hcol).
  assert ((token_count m =? 0)%Z = false) as -> by lia.
  eexists. split; [done|].
  apply Forall_fmap. eapply Forall_impl; [exact Hcol|].
  intros x [H0 H1]. simpl. unfold Int64.true_divide.
  assert (0 < inject_Z (token_count m))%Q as Ht.
  { change 0%Q with (inject_Z 0). by rewrite <- Zlt_Qlt. }
  split.
  - apply Qle_shift_div_l; [done|]. rewrite Qmult_0_l.
    change 0%Q with (inject_Z 0). by rewrite <- Zle_Qle.
  - apply Qle_shift_div_r; [done|]. rewrite Qmult_1_l.
    by rewrite <- Zle_Qle.
Qed.

Lemma get_term_proportions_in_unit_interval_without_overflow_witness :
  exists props,
    Int64.get_term_proportions (Array2 scenario_counts) = Return props /\
    Forall (fun x => 0 <= x /\ x <= 1)%Q props.
Proof.
  apply (get_term_proportions_in_unit_interval_without_overflow
           scenario_counts).
  - repeat constructor; by vm_compute.
  - by vm_compute.
Defined.

(** * The exact marginal word distribution is a distribution *)









(** * Exact relevance entries *)

Lemma get_topic_word_relevance_entry (phi theta : matrix xreal)
    (doc_lengths : list xreal) (r : R) :
  matrix_wf phi ->
  matrix_wf theta ->
  shape1 theta = shape0 phi ->
  length doc_lengths = shape0 theta ->
  Forall (Forall positive_entry) (rows phi) ->
  row_stochastic theta ->
  valid_doc_lengths doc_lengths ->
  exists pw : nat -> R,
    get_marginal_word_distrib phi
      (get_marginal_topic_distrib theta doc_lengths)
    = tabulate (shape1 phi) (fun w => Finite (pw w)) /\
    (forall w, w < shape1 phi -> (0 < pw w)%R) /\
    forall t w, t < shape0 phi -> w < shape1 phi ->
      (0 < xval (item NaN phi t w))%R /\
      item NaN (get_topic_word_relevance phi theta doc_lengths (Finite r))
        t w
      = Finite (r * ln (xval (item NaN phi t w))
                + (1 - r) * ln (xval (item NaN phi t w) / pw w)).
Proof.
  intros Hwf Hwft Hk Hlen Hpos Hst Hdl.
  destruct (get_marginal_topic_distrib_Finite theta doc_lengths
              Hwft Hlen Hst Hdl) as (p & Hp & Hp0 & Hp1).
  rewrite Hk in Hp, Hp0, Hp1.
  destruct (get_marginal_word_distrib_positive phi p Hwf Hpos Hp0 Hp1)
    as (pw & Hpw & Hpw0).
  pose proof (proj1 (matrix_wf_Forall positive_entry NaN phi Hwf) Hpos)
    as Hitem.
  exists pw. rewrite Hp. split_and!; [done|done|].
  intros t w Ht Hw.
  destruct (positive_entry_Finite _ (Hitem t w Ht Hw)) as [Heq Ha].
  split; [done|].
  unfold get_topic_word_relevance. rewrite Hp, Hpw.
  unfold ewise2, ewise1, ewise_rows. simpl.
  rewrite !item_build by done.
  rewrite lookup_tabulate by done. simpl.
  rewrite Heq. simpl xval. pose proof (Hpw0 w Hw) as Hb.
  rewrite xdiv_Finite_pos by done.
  rewrite !xlog_Finite_pos;
    [|unfold Rdiv; apply Rmult_lt_0_compat;
      [done|by apply Rinv_0_lt_compat]|done].
  simpl. f_equal; try lra.
Qed.

(** X14: with [lambda_ = 0] the relevance is exactly the log lift, the
    logarithm of [phi] divided by the marginal word distribution. *)
Theorem get_topic_word_relevance_lambda_zero (phi theta : matrix xreal)
    (doc_lengths : list xreal) :
  matrix_wf phi ->
  matrix_wf theta ->
  shape1 theta = shape0 phi ->
  length doc_lengths = shape0 theta ->
  Forall (Forall positive_entry) (rows phi) ->
  row_stochastic theta ->
  valid_doc_lengths doc_lengths ->
  get_topic_word_relevance phi theta doc_lengths (Finite 0)
  = ewise1 NaN xlog
      (ewise_rows NaN xdiv phi
         (get_marginal_word_distrib phi
            (get_marginal_topic_distrib theta doc_lengths))).
Proof.
  intros Hwf Hwft Hk Hlen Hpos Hst Hdl.
  destruct (get_topic_word_relevance_entry phi theta doc_lengths 0
              Hwf Hwft Hk Hlen Hpos Hst Hdl) as (pw & Hpw & Hpw0 & Hentry).
  pose proof (proj1 (matrix_wf_Forall positive_entry NaN phi Hwf) Hpos)
    as Hitem.
  transitivity (build (shape0 phi) (shape1 phi)
    (fun t w =>
       item NaN (get_topic_word_relevance phi theta doc_lengths (Finite 0))
         t w)).
  - unfold get_topic_word_relevance, ewise2 at 1. simpl.
    apply build_ext. intros t w Ht Hw.
    unfold ewise2. simpl. by rewrite item_build.
  - rewrite Hpw. unfold ewise1, ewise_rows. simpl.
    apply build_ext. intros t w Ht Hw.
    destruct (Hentry t w Ht Hw) as [Ha ->].
    rewrite item_build by done. rewrite lookup_tabulate by done. simpl.
    destruct (positive_entry_Finite _ (Hitem t w Ht Hw)) as [Heq _].
    rewrite Heq at 3. pose proof (Hpw0 w Hw).
    rewrite xdiv_Finite_pos by done.
    rewrite xlog_Finite_pos.
    + f_equal. lra.
    + unfold Rdiv. apply Rmult_lt_0_compat; [done|].
      by apply Rinv_0_lt_compat.
Qed.

Lemma get_topic_word_relevance_lambda_zero_witness :
  get_topic_word_relevance two_topic_phi one_doc_theta [Finite 1] (Finite 0)
  = ewise1 NaN xlog
      (ewise_rows NaN xdiv two_topic_phi
         (get_marginal_word_distrib two_topic_phi
            (get_marginal_topic_distrib one_doc_theta [Finite 1]))).
Proof.
  apply (get_topic_word_relevance_lambda_zero two_topic_phi one_doc_theta
           [Finite 1]).
  - split; [reflexivity|]. repeat constructor.
  - split; [reflexivity|]. repeat constructor.
  - reflexivity.
  - reflexivity.
  - repeat constructor; simpl; lra.
  - split; repeat constructor; try (simpl; lra).
    unfold xsum, asum. simpl. f_equal. lra.
  - split; [repeat constructor; simpl; lra|].
    apply Exists_cons_hd. simpl. lra.
Defined.

Lemma words_by_score_most_least {Score A : Type}
    (argsort : list Score -> list nat) (words : list A)
    (score : list Score) :
  argsort score ≡ₚ seq 0 (length score) ->
  length words = length score ->
  exists most,
    _words_by_score argsort words score false None = Return most /\
    most ≡ₚ words /\
    _words_by_score argsort words score true None = Return (reverse most).
Proof.
  intros Hperm Hlen.
  destruct (words_by_score_Permutation argsort words score true Hperm Hlen)
    as (least & Hleast & Hp).
  exists (reverse least). rewrite reverse_involutive.
  split_and!; [|by rewrite reverse_Permutation|done].
  rewrite words_by_score_None in Hleast |- * by done.
  apply take_indices_Return in Hleast. apply take_indices_Return.
  unfold order_indices in *. simpl in *. by apply Forall2_reverse.
Qed.

Lemma length_get_word_saliency (phi theta : matrix xreal)
    (doc_lengths : list xreal) :
  length (get_word_saliency phi theta doc_lengths) = shape1 phi.
Proof.
  unfold get_word_saliency, get_marginal_word_distrib,
    get_word_distinctiveness, xsum_axis1, xsum_axis0, sum_axis1, sum_axis0.
  rewrite length_zip_with, !length_tabulate. simpl. lia.
Qed.

Lemma length_get_word_distinctiveness (phi : matrix xreal)
    (p_t : list xreal) :
  length (get_word_distinctiveness phi p_t) = shape1 phi.
Proof.
  unfold get_word_distinctiveness, xsum_axis0, sum_axis0.
  by rewrite length_tabulate.
Qed.

(** X16: the saliency rankings cover the whole vocabulary: when [vocab]
    has one word per column of [phi], [get_most_salient_words] returns a
    permutation of [vocab] and [get_least_salient_words] the same words in
    reverse order; with any other length both raise [ValueError]. *)
Theorem salient_words_rank_whole_vocabulary
    (argsort : list xreal -> list nat) (vocab : list string)
    (phi theta : matrix xreal) (doc_lengths : list xreal) :
  ArgsortSpec xleb argsort ->
  (length vocab = shape1 phi ->
   exists most,
     get_most_salient_words argsort vocab phi theta doc_lengths None
       = Return most /\
     most ≡ₚ vocab /\
     get_least_salient_words argsort vocab phi theta doc_lengths None
       = Return (reverse most)) /\
  (length vocab <> shape1 phi ->
   forall n,
     get_most_salient_words argsort vocab phi theta doc_lengths n
       = Raise ValueError /\
     get_least_salient_words argsort vocab phi theta doc_lengths n
       = Raise ValueError).
Proof.
  intros [Hperm _].
  unfold get_most_salient_words, get_least_salient_words,
    _words_by_salience_score.
  pose proof (length_get_word_saliency phi theta doc_lengths) as Hl.
  split.
  - intros Hlen. apply words_by_score_most_least; [apply Hperm|].
    by rewrite Hl.
  - intros Hlen n.
    split; apply words_by_score_shape_mismatch; by rewrite Hl.
Qed.

Lemma salient_words_rank_whole_vocabulary_witness :
  exists most,
    get_most_salient_words (stable_argsort xleb) ["a"; "b"] two_topic_phi
      one_doc_theta [Finite 1] None = Return most /\
    most ≡ₚ ["a"; "b"] /\
    get_least_salient_words (stable_argsort xleb) ["a"; "b"] two_topic_phi
      one_doc_theta [Finite 1] None = Return (reverse most).
Proof.
  apply (salient_words_rank_whole_vocabulary (stable_argsort xleb)
           ["a"; "b"] two_topic_phi one_doc_theta [Finite 1]).
  - exact stable_argsort_xleb_spec.
  - reflexivity.
Defined.

(** X17: the distinctiveness rankings cover the whole vocabulary in the
    same way: a permutation of [vocab] from most to least distinctive, its
    reverse from least to most, and [ValueError] when [vocab] does not
    have one word per column of [phi]. *)
Theorem distinct_words_rank_whole_vocabulary
    (argsort : list xreal -> list nat) (vocab : list string)
    (phi theta : matrix xreal) (doc_lengths : list xreal) :
  ArgsortSpec xleb argsort ->
  (length vocab = shape1 phi ->
   exists most,
     get_most_distinct_words argsort vocab phi theta doc_lengths None
       = Return most /\
     most ≡ₚ vocab /\
     get_least_distinct_words argsort vocab phi theta doc_lengths None
       = Return (reverse most)) /\
  (length vocab <> shape1 phi ->
   forall n,
     get_most_distinct_words argsort vocab phi theta doc_lengths n
       = Raise ValueError /\
     get_least_distinct_words argsort vocab phi theta doc_lengths n
       = Raise ValueError).
Proof.
  intros [Hperm _].
  unfold get_most_distinct_words, get_least_distinct_words,
    _words_by_distinctiveness_score.
  pose proof (length_get_word_distinctiveness phi
                (get_marginal_topic_distrib theta doc_lengths)) as Hl.
  split.
  - intros Hlen. apply words_by_score_most_least; [apply Hperm|].
    by rewrite Hl.
  - intros Hlen n.
    split; apply words_by_score_shape_mismatch; by rewrite Hl.
Qed.

Lemma distinct_words_rank_whole_vocabulary_witness :
  exists most,
    get_most_distinct_words (stable_argsort xleb) ["a"; "b"] two_topic_phi
      one_doc_theta [Finite 1] None = Return most /\
    most ≡ₚ ["a"; "b"] /\
    get_least_distinct_words (stable_argsort xleb) ["a"; "b"] two_topic_phi
      one_doc_theta [Finite 1] None = Return (reverse most).
Proof.
  apply (distinct_words_rank_whole_vocabulary (stable_argsort xleb)
           ["a"; "b"] two_topic_phi one_doc_theta [Finite 1]).
  - exact stable_argsort_xleb_spec.
  - reflexivity.
Defined.

Lemma generate_topic_labels_Some_unfold (argsort : list xreal -> list nat)
    (phi theta : matrix xreal) (doc_lengths : list xreal)
    (vocab : list string) (n : Z) (lambda_ : xreal)
    (labels_glue : string) (labels_format : list format_piece)
    (most_rel_words : list (list string)) :
  (1 <= n <= Z.of_nat (length vocab))%Z ->
  topic_rankings argsort vocab
    (get_topic_word_relevance phi theta doc_lengths lambda_) (shape0 phi)
    = Return most_rel_words ->
  generate_topic_labels_from_top_words argsort phi theta doc_lengths vocab
    (Some n) lambda_ labels_glue labels_format
  = if decide (shape0 phi = 0) then Raise AssertionError
    else
      let topic_labels :=
        format_labels labels_glue labels_format
          (take (Z.to_nat n) <$> most_rel_words) in
      if all_unique topic_labels then Return topic_labels
      else Raise ValueError.
Proof.
  intros Hn Hr. unfold generate_topic_labels_from_top_words.
  assert ((1 <=? n)%Z = true) as -> by lia.
  assert ((n <=? Z.of_nat (length vocab))%Z = true) as -> by lia.
  simpl. rewrite Hr. simpl.
  assert ((if all_unique (take (Z.to_nat n) <$> most_rel_words)
           then take (Z.to_nat n) <$> most_rel_words
           else take (Z.to_nat n) <$> most_rel_words)
          = take (Z.to_nat n) <$> most_rel_words) as ->
    by (by destruct (all_unique _)).
  pose proof (for_each_length _ _ _ Hr) as Hlen.
  rewrite length_seq in Hlen.
  destruct most_rel_words as [|ws most_rel_words]; simpl in *.
  - by rewrite <- Hlen.
  - rewrite <- Hlen. simpl. by destruct (all_unique _).
Qed.

(** X19: with an explicit [n_words], at least one topic and a vocabulary
    matching the columns of [phi]: a value within [1, len(vocab)] gives
    one label per topic, built from exactly that many top words and
    pairwise distinct under the default format; any other value raises
    [ValueError], whatever the format. *)
Theorem generate_topic_labels_explicit_n_words
    (argsort : list xreal -> list nat) (phi theta : matrix xreal)
    (doc_lengths : list xreal) (vocab : list string) (n : Z)
    (lambda_ : xreal) (labels_glue : string) :
  ArgsortSpec xleb argsort ->
  length vocab = shape1 phi ->
  1 <= shape0 phi ->
  ((1 <= n <= Z.of_nat (length vocab))%Z ->
   exists most_rel_words,
     topic_rankings argsort vocab
       (get_topic_word_relevance phi theta doc_lengths lambda_) (shape0 phi)
       = Return most_rel_words /\
     let topic_labels :=
       format_labels labels_glue default_labels_format
         (take (Z.to_nat n) <$> most_rel_words) in
     generate_topic_labels_from_top_words argsort phi theta doc_lengths
       vocab (Some n) lambda_ labels_glue default_labels_format
       = Return topic_labels /\
     NoDup topic_labels /\
     length topic_labels = shape0 phi) /\
  (~ (1 <= n <= Z.of_nat (length vocab))%Z ->
   forall labels_format,
     generate_topic_labels_from_top_words argsort phi theta doc_lengths
       vocab (Some n) lambda_ labels_glue labels_format
     = Raise ValueError).
Proof.
  intros Hspec Hlen Hk. split.
  - intros Hn.
    destruct (get_topic_word_relevance_shape phi theta doc_lengths lambda_)
      as [f Hf].
    destruct (topic_rankings_Return argsort vocab (shape0 phi) (shape1 phi)
                f Hspec Hlen) as (most_rel_words & Hr & Hl).
    rewrite <- Hf in Hr.
    exists most_rel_words. split; [done|]. cbv zeta.
    pose proof (format_labels_default_NoDup labels_glue
                  (take (Z.to_nat n) <$> most_rel_words)) as Hnd.
    split_and!; [|done|].
    + rewrite (generate_topic_labels_Some_unfold _ _ _ _ _ _ _ _ _
                 most_rel_words) by done.
      destruct (decide (shape0 phi = 0)); [lia|]. simpl.
      apply all_unique_NoDup in Hnd. by rewrite Hnd.
    + unfold format_labels. by rewrite length_imap, length_fmap.
  - intros Hn labels_format. unfold generate_topic_labels_from_top_words.
    destruct (1 <=? n)%Z eqn:H1; simpl; [|done].
    destruct (n <=? Z.of_nat (length vocab))%Z eqn:H2; simpl; [|done]. lia.
Qed.

Lemma generate_topic_labels_explicit_n_words_witness :
  exists most_rel_words,
    topic_rankings (stable_argsort xleb) ["a"; "b"]
      (get_topic_word_relevance two_topic_phi one_doc_theta [Finite 1]
         (Finite 1)) (shape0 two_topic_phi)
      = Return most_rel_words /\
    let topic_labels :=
      format_labels "_" default_labels_format
        (take (Z.to_nat 2) <$> most_rel_words) in
    generate_topic_labels_from_top_words (stable_argsort xleb)
      two_topic_phi one_doc_theta [Finite 1] ["a"; "b"] (Some 2%Z)
      (Finite 1) "_" default_labels_format
      = Return topic_labels /\
    NoDup topic_labels /\
    length topic_labels = shape0 two_topic_phi.
Proof.
  apply (generate_topic_labels_explicit_n_words (stable_argsort xleb)
           two_topic_phi one_doc_theta [Finite 1] ["a"; "b"] 2 (Finite 1)
           "_").
  - exact stable_argsort_xleb_spec.
  - reflexivity.
  - simpl. lia.
  - simpl. lia.
Defined.

(** X20: with an empty vocabulary (and a [phi] without columns) the search
    of [n_words = None] has no prefix length to try: the function raises
    [AssertionError], whatever the number of topics. *)
Theorem generate_topic_labels_empty_vocabulary
    (argsort : list xreal -> list nat) (phi theta : matrix xreal)
    (doc_lengths : list xreal) (lambda_ : xreal) (labels_glue : string)
    (labels_format : list format_piece) :
  ArgsortSpec xleb argsort ->
  shape1 phi = 0 ->
  generate_topic_labels_from_top_words argsort phi theta doc_lengths []
    None lambda_ labels_glue labels_format
  = Raise AssertionError.
Proof.
  intros Hspec Hv.
  destruct (get_topic_word_relevance_shape phi theta doc_lengths lambda_)
    as [f Hf].
  destruct (topic_rankings_Return argsort [] (shape0 phi) (shape1 phi) f
              Hspec) as (most_rel_words & Hr & _); [by rewrite Hv|].
  rewrite <- Hf in Hr.
  unfold generate_topic_labels_from_top_words. simpl.
  by rewrite Hr.
Qed.

Lemma generate_topic_labels_empty_vocabulary_witness :
  generate_topic_labels_from_top_words (stable_argsort xleb)
    (Matrix 2 0 [[]; []]) one_doc_theta [Finite 1] [] None (Finite 1) "_"
    default_labels_format
  = Raise AssertionError.
Proof.
  apply (generate_topic_labels_empty_vocabulary (stable_argsort xleb)
           (Matrix 2 0 [[]; []]) one_doc_theta [Finite 1]).
  - exact stable_argsort_xleb_spec.
  - reflexivity.
Defined.

Lemma format_label_literal (labels_format : list format_piece)
    (i0 i1 j0 j1 : nat) (s s' : string) :
  literal_format labels_format ->
  format_label labels_format i0 i1 s = format_label labels_format j0 j1 s'.
Proof.
  intros Hlit. unfold format_label. f_equal.
  induction Hlit as [|p l Hp Hl IH]; [done|].
  rewrite !fmap_cons. f_equal; [|done]. by destruct p.
Qed.

(** X21: a [labels_format] without placeholder gives every topic the same
    label; with two topics or more the final check raises [ValueError]
    (generated labels are not unique). *)
Theorem generate_topic_labels_literal_format
    (argsort : list xreal -> list nat) (phi theta : matrix xreal)
    (doc_lengths : list xreal) (vocab : list string) (lambda_ : xreal)
    (labels_glue : string) (labels_format : list format_piece) :
  ArgsortSpec xleb argsort ->
  length vocab = shape1 phi ->
  2 <= shape0 phi ->
  1 <= length vocab ->
  literal_format labels_format ->
  generate_topic_labels_from_top_words argsort phi theta doc_lengths vocab
    None lambda_ labels_glue labels_format
  = Raise ValueError.
Proof.
  intros Hspec Hlen Hk Hv Hlit.
  destruct (get_topic_word_relevance_shape phi theta doc_lengths lambda_)
    as [f Hf].
  destruct (topic_rankings_Return argsort vocab (shape0 phi) (shape1 phi) f
              Hspec Hlen) as (most_rel_words & Hr & Hl).
  rewrite <- Hf in Hr.
  destruct (generate_topic_labels_None argsort phi theta doc_lengths vocab
              lambda_ most_rel_words Hv Hr) as (n & _ & Hg).
  rewrite Hg. destruct (decide (shape0 phi = 0)); [lia|]. simpl.
  destruct (all_unique _) eqn:Hu; [|done].
  apply all_unique_NoDup in Hu.
  destruct most_rel_words as [|ws0 [|ws1 rest]]; simpl in Hl; [lia|lia|].
  unfold format_labels in Hu. rewrite !fmap_cons, !imap_cons in Hu.
  apply NoDup_cons in Hu as [Hin _]. destruct Hin.
  apply elem_of_cons. left. by apply format_label_literal.
Qed.

Lemma generate_topic_labels_literal_format_witness :
  generate_topic_labels_from_top_words (stable_argsort xleb) two_topic_phi
    one_doc_theta [Finite 1] ["a"; "b"] None (Finite 1) "_" [Lit "topic"]
  = Raise ValueError.
Proof.
  apply (generate_topic_labels_literal_format (stable_argsort xleb)
           two_topic_phi one_doc_theta [Finite 1] ["a"; "b"]).
  - exact stable_argsort_xleb_spec.
  - reflexivity.
  - simpl. lia.
  - simpl. lia.
  - repeat constructor.
Defined.

(** X22: when [vocab] does not have one word per column of [phi] and there
    is at least one topic, the function raises [ValueError] for every
    [n_words]: an explicit value out of range is rejected first, and
    otherwise the ranking of the first topic rejects the vocabulary. *)
Theorem generate_topic_labels_vocabulary_mismatch
    (argsort : list xreal -> list nat) (phi theta : matrix xreal)
    (doc_lengths : list xreal) (vocab : list string) (n_words : option Z)
    (lambda_ : xreal) (labels_glue : string)
    (labels_format : list format_piece) :
  1 <= shape0 phi ->
  length vocab <> shape1 phi ->
  generate_topic_labels_from_top_words argsort phi theta doc_lengths vocab
    n_words lambda_ labels_glue labels_format
  = Raise ValueError.
Proof.
  intros Hk Hlen.
  destruct (get_topic_word_relevance_shape phi theta doc_lengths lambda_)
    as [f Hf].
  assert (topic_rankings argsort vocab
            (get_topic_word_relevance phi theta doc_lengths lambda_)
            (shape0 phi) = Raise ValueError) as Hr.
  { rewrite Hf. unfold topic_rankings.
    destruct (shape0 phi) as [|k]; [lia|]. simpl.
    unfold get_most_relevant_words_for_topic,
      _check_relevant_words_for_topic_args. simpl.
    apply Nat.eqb_neq in Hlen. by rewrite Hlen. }
  unfold generate_topic_labels_from_top_words.
  destruct n_words as [n|]; simpl.
  - destruct (1 <=? n)%Z; simpl; [|done].
    destruct (n <=? Z.of_nat (length vocab))%Z; simpl; [|done].
    by rewrite Hr.
  - by rewrite Hr.
Qed.

Lemma generate_topic_labels_vocabulary_mismatch_witness :
  generate_topic_labels_from_top_words (stable_argsort xleb) two_topic_phi
    one_doc_theta [Finite 1] ["a"] None (Finite 1) "_"
    default_labels_format
  = Raise ValueError.
Proof.
  apply (generate_topic_labels_vocabulary_mismatch (stable_argsort xleb)
           two_topic_phi one_doc_theta [Finite 1] ["a"] None).
  - simpl. lia.
  - simpl. lia.
Defined.

(** X23: with a non-empty vocabulary matching the columns of [phi], the
    call with [n_words = None] behaves exactly as the call with the
    explicit prefix length the search settles on, for every glue and
    format (same labels, same exception). *)
Theorem generate_topic_labels_None_as_explicit
    (argsort : list xreal -> list nat) (phi theta : matrix xreal)
    (doc_lengths : list xreal) (vocab : list string) (lambda_ : xreal) :
  ArgsortSpec xleb argsort ->
  length vocab = shape1 phi ->
  1 <= length vocab ->
  exists most_rel_words n,
    topic_rankings argsort vocab
      (get_topic_word_relevance phi theta doc_lengths lambda_) (shape0 phi)
      = Return most_rel_words /\
    chosen_prefix_length most_rel_words (length vocab) n /\
    forall labels_glue labels_format,
      generate_topic_labels_from_top_words argsort phi theta doc_lengths
        vocab None lambda_ labels_glue labels_format
      = generate_topic_labels_from_top_words argsort phi theta doc_lengths
          vocab (Some (Z.of_nat n)) lambda_ labels_glue labels_format.
Proof.
  intros Hspec Hlen Hv.
  destruct (get_topic_word_relevance_shape phi theta doc_lengths lambda_)
    as [f Hf].
  destruct (topic_rankings_Return argsort vocab (shape0 phi) (shape1 phi) f
              Hspec Hlen) as (most_rel_words & Hr & Hl).
  rewrite <- Hf in Hr.
  destruct (generate_topic_labels_None argsort phi theta doc_lengths vocab
              lambda_ most_rel_words Hv Hr) as (n & Hn & Hg).
  exists most_rel_words, n. split_and!; [done|done|].
  intros labels_glue labels_format. rewrite Hg.
  rewrite (generate_topic_labels_Some_unfold _ _ _ _ _ _ _ _ _
             most_rel_words); [|destruct Hn; lia|done].
  by rewrite Nat2Z.id.
Qed.

Lemma generate_topic_labels_None_as_explicit_witness :
  exists most_rel_words n,
    topic_rankings (stable_argsort xleb) ["a"; "b"]
      (get_topic_word_relevance two_topic_phi one_doc_theta [Finite 1]
         (Finite 1)) (shape0 two_topic_phi)
      = Return most_rel_words /\
    chosen_prefix_length most_rel_words (length ["a"; "b"]) n /\
    forall labels_glue labels_format,
      generate_topic_labels_from_top_words (stable_argsort xleb)
        two_topic_phi one_doc_theta [Finite 1] ["a"; "b"] None (Finite 1)
        labels_glue labels_format
      = generate_topic_labels_from_top_words (stable_argsort xleb)
          two_topic_phi one_doc_theta [Finite 1] ["a"; "b"]
          (Some (Z.of_nat n)) (Finite 1) labels_glue labels_format.
Proof.
  apply (generate_topic_labels_None_as_explicit (stable_argsort xleb)
           two_topic_phi one_doc_theta [Finite 1] ["a"; "b"] (Finite 1)).
  - exact stable_argsort_xleb_spec.
  - reflexivity.
  - simpl. lia.
Defined.

(** * Further properties in the arithmetic of the code *)

Lemma add_nan_l (x : float) : (nan + x)%float = nan.
Proof.
  rewrite <- (SF2Prim_Prim2SF (nan + x)%float), add_spec.
  by destruct (Prim2SF x).
Qed.

Lemma add_zero_l_same_value (x z : float) :
  z = 0%float \/ z = (-0)%float ->
  Binary64.same_value (z + x) x = true.
Proof.
  intros Hz.
  destruct (float_cases x)
    as [-> | [-> | [-> | [-> | [-> | (s & m & e & Hx)]]]]];
    try (by destruct Hz as [-> | ->]).
  assert ((z + x)%float = x) as ->.
  { apply Prim2SF_inj. rewrite add_spec, Hx.
    by destruct Hz as [-> | ->]. }
  unfold Binary64.same_value.
  by rewrite FloatAxioms.eqb_spec, Hx, SFeqb_refl.
Qed.

(** X24: in binary64, with [lambda_ = 0], the entry of the relevance
    matrix for topic [t] and word [w] has the value of the lift term
    [log(phi[t, w] / p_w[w])] when [log(phi[t, w])] is finite, and is NaN
    when [log(phi[t, w])] is infinite or NaN (as for [phi[t, w] = 0]). *)
Theorem get_topic_word_relevance_lambda_zero_finite_log
    (log_finite : float -> float) (phi theta : matrix float)
    (doc_lengths : list float) :
  matrix_wf phi ->
  matrix_wf theta ->
  shape1 theta = shape0 phi ->
  length doc_lengths = shape0 theta ->
  forall t w, t < shape0 phi -> w < shape1 phi ->
    Binary64.same_value
      (item nan
         (Binary64.get_topic_word_relevance log_finite phi theta
            doc_lengths 0) t w)
      (if Binary64.is_finite
            (Binary64.np_log log_finite (item nan phi t w))
       then item nan (Binary64.loglift log_finite phi theta doc_lengths)
              t w
       else nan)
    = true.
Proof.
  intros _ _ _ _ t w Ht Hw. rewrite relevance_entry by done.
  change (1 - 0)%float with 1%float. rewrite mul_one_l.
  destruct (mul_zero_l_cases
              (Binary64.np_log log_finite (item nan phi t w)))
    as [[-> Hz] | [-> ->]].
  - by apply add_zero_l_same_value.
  - by rewrite add_nan_l.
Qed.

Lemma get_topic_word_relevance_lambda_zero_finite_log_witness :
  Binary64.same_value
    (item nan
       (Binary64.get_topic_word_relevance example_log two_topic_phi64
          first_topic_theta64 [1%float] 0) 1 0)
    (if Binary64.is_finite
          (Binary64.np_log example_log (item nan two_topic_phi64 1 0))
     then item nan
            (Binary64.loglift example_log two_topic_phi64
               first_topic_theta64 [1%float]) 1 0
     else nan)
  = true.
Proof.
  apply (get_topic_word_relevance_lambda_zero_finite_log example_log
           two_topic_phi64 first_topic_theta64 [1%float]).
  - split; [reflexivity|]. repeat constructor.
  - split; [reflexivity|]. repeat constructor.
  - reflexivity.
  - reflexivity.
  - simpl. lia.
  - simpl. lia.
Defined.

(** X25: on a 2D matrix of non-negative counts whose token count fits in
    [int64], [get_term_frequencies] returns the exact column sums: one
    per term, each between 0 and the token count, adding up to the token
    count without wrap-around. *)
Theorem get_term_frequencies_exact_without_overflow (m : matrix Z) :
  count_matrix m ->
  (token_count m <= Int64.max_int)%Z ->
  exists freq,
    Int64.get_term_frequencies (Array2 m) = Return freq /\
    length freq = shape1 m /\
    freq = sum_axis0 0%Z Z.add m /\
    Forall (fun x => 0 <= x <= token_count m)%Z freq /\
    Int64.isum freq = token_count m.
Proof.
  intros Hnn Hmax.
  destruct (term_frequencies_exact m Hnn Hmax) as (Hfreq & Htot & _ & Hcol).
  exists (sum_axis0 0%Z Int64.add m). split_and!.
  - done.
  - unfold sum_axis0. by rewrite length_tabulate.
  - done.
  - by rewrite Hfreq.
  - by rewrite Hfreq.
Qed.

Lemma get_term_frequencies_exact_without_overflow_witness :
  exists freq,
    Int64.get_term_frequencies (Array2 scenario_counts) = Return freq /\
    length freq = shape1 scenario_counts /\
    freq = sum_axis0 0%Z Z.add scenario_counts /\
    Forall (fun x => 0 <= x <= token_count scenario_counts)%Z freq /\
    Int64.isum freq = token_count scenario_counts.
Proof.
  apply (get_term_frequencies_exact_without_overflow scenario_counts).
  - repeat constructor; by vm_compute.
  - by vm_compute.
Defined.
